(** * ear-violator-9000: the command handlers of [src/data.ts]

    A shallow embedding of the soundboard's stores and chat-command handlers,
    and the properties of them that the design document states.

    Reading conventions.
    - A JavaScript object used as a dictionary ([Users], [Aliases],
      [Cooldowns], the preferences object, the compiled [Role] enum) is a
      plain object: a [gmap] holds its own properties, and the members it
      inherits from [Object.prototype] are listed in
      [JS.Object_prototype_keys].  [k in o] is [JS.js_in]: true for an own
      key and for an inherited one.  Where the code goes on with an
      inherited member where it expects a string, the member enters by the
      string it converts to, [member_to_string], which the engine defines
      and the handlers take as a parameter.
    - Strings are Rocq strings, the UTF-8 bytes of the JavaScript string.
      [JS.toLowerCase] and [capitalize] convert ASCII letters and agree with
      JavaScript on ASCII strings ([JS.is_ascii]); a property that depends on
      the case of other letters says so in a hypothesis.
    - Cooldown values are whole numbers of milliseconds, in [Z].
    - The handlers run in a small state monad over the stores, the player
      and the list of observable calls made so far (console, player, TTS).
    - [./core/duration], [./core/util] and [./core/player] are not part of
      this file's source: [parseDuration], [Player.play] and [Player.stop]
      are section variables, and [capitalize] is modelled from the design
      document. *)

From Stdlib Require Import ZArith String Ascii Lia.
From stdpp Require Import base option list gmap strings.

Local Open Scope string_scope.
Local Open Scope Z_scope.

(** ** JavaScript string primitives used by the handlers *)

Module JS.

Definition is_upper (c : ascii) : bool :=
  ((65 <=? nat_of_ascii c) && (nat_of_ascii c <=? 90))%nat.

Definition is_lower (c : ascii) : bool :=
  ((97 <=? nat_of_ascii c) && (nat_of_ascii c <=? 122))%nat.

Definition lower_char (c : ascii) : ascii :=
  if is_upper c then ascii_of_nat (nat_of_ascii c + 32) else c.

Definition upper_char (c : ascii) : ascii :=
  if is_lower c then ascii_of_nat (nat_of_ascii c - 32) else c.

(** The string has ASCII characters only. *)
Definition is_ascii (s : string) : bool :=
  forallb (fun c => (nat_of_ascii c <? 128)%nat) (list_ascii_of_string s).

(** [s.toLowerCase()] for an ASCII string [s]; on other strings the ASCII
    letters are lower-cased and the other bytes are kept. *)
Fixpoint toLowerCase (s : string) : string :=
  match s with
  | EmptyString => EmptyString
  | String c s' => String (lower_char c) (toLowerCase s')
  end.

(** The string has an ASCII capital letter in it. *)
Definition has_upper (s : string) : bool :=
  existsb is_upper (list_ascii_of_string s).

(** [s.split(" ")[0]]: everything before the first space. *)
Fixpoint split_space_0 (s : string) : string :=
  match s with
  | EmptyString => EmptyString
  | String c s' =>
      if Ascii.eqb c " " then EmptyString else String c (split_space_0 s')
  end.

(** Template-literal rendering of a boolean. *)
Definition bool_to_string (b : bool) : string :=
  if b then "true" else "false".

(** *** [Number.isNaN(Number(s))] for a string [s]

    [Number] applied to a string follows the StringToNumber grammar:
    optional white space around either nothing (the result is 0), a signed
    decimal literal (digits with an optional fraction and exponent, or
    [Infinity]), or an unsigned [0x], [0o] or [0b] integer.  Anything else
    is [NaN].  White space is TAB, LF, VT, FF, CR, SP and, in their UTF-8
    bytes, U+00A0, U+1680, U+2000 to U+200A, U+2028, U+2029, U+202F, U+205F,
    U+3000 and U+FEFF. *)

Definition is_space (c : ascii) : bool :=
  let n := nat_of_ascii c in
  ((n =? 32) || ((9 <=? n) && (n <=? 13)))%nat.

(** U+00A0 *)
Definition is_space2 (b1 b2 : ascii) : bool :=
  ((nat_of_ascii b1 =? 194) && (nat_of_ascii b2 =? 160))%nat.

Definition is_space3 (b1 b2 b3 : ascii) : bool :=
  let n1 := nat_of_ascii b1 in
  let n2 := nat_of_ascii b2 in
  let n3 := nat_of_ascii b3 in
  (((n1 =? 225) && (n2 =? 154) && (n3 =? 128))
   || ((n1 =? 226) && (n2 =? 128)
       && (((128 <=? n3) && (n3 <=? 138)) || (n3 =? 168) || (n3 =? 169)
           || (n3 =? 175)))
   || ((n1 =? 226) && (n2 =? 129) && (n3 =? 159))
   || ((n1 =? 227) && (n2 =? 128) && (n3 =? 128))
   || ((n1 =? 239) && (n2 =? 187) && (n3 =? 191)))%nat.

Definition is_digit (c : ascii) : bool :=
  ((48 <=? nat_of_ascii c) && (nat_of_ascii c <=? 57))%nat.

Definition is_hex_digit (c : ascii) : bool :=
  let n := nat_of_ascii c in
  (is_digit c || ((65 <=? n) && (n <=? 70)) || ((97 <=? n) && (n <=? 102)))%nat.

Definition is_octal_digit (c : ascii) : bool :=
  ((48 <=? nat_of_ascii c) && (nat_of_ascii c <=? 55))%nat.

Definition is_binary_digit (c : ascii) : bool :=
  ((48 <=? nat_of_ascii c) && (nat_of_ascii c <=? 49))%nat.

Fixpoint drop_spaces (cs : list ascii) : list ascii :=
  match cs with
  | c :: r1 =>
      if is_space c then drop_spaces r1
      else
        match r1 with
        | c2 :: r2 =>
            if is_space2 c c2 then drop_spaces r2
            else
              match r2 with
              | c3 :: r3 => if is_space3 c c2 c3 then drop_spaces r3 else cs
              | [] => cs
              end
        | [] => cs
        end
  | [] => []
  end.

(** Cuts the string where only white space follows. *)
Fixpoint drop_trailing_spaces (cs : list ascii) : list ascii :=
  match cs with
  | c :: r1 =>
      match drop_spaces cs with
      | [] => []
      | _ => c :: drop_trailing_spaces r1
      end
  | [] => []
  end.

Definition trim (cs : list ascii) : list ascii :=
  drop_trailing_spaces (drop_spaces cs).

(** Splits off the longest prefix of characters satisfying [p]. *)
Fixpoint span (p : ascii -> bool) (cs : list ascii) : list ascii * list ascii :=
  match cs with
  | c :: cs' =>
      if p c then let '(a, b) := span p cs' in (c :: a, b) else ([], cs)
  | [] => ([], [])
  end.

Definition nonempty_all (p : ascii -> bool) (cs : list ascii) : bool :=
  match cs with
  | [] => false
  | _ => forallb p cs
  end.

Definition drop_sign (cs : list ascii) : list ascii :=
  match cs with
  | c :: cs' => if (Ascii.eqb c "+" || Ascii.eqb c "-")%bool then cs' else cs
  | [] => []
  end.

(** ExponentPart, or nothing. *)
Definition exponent_opt (cs : list ascii) : bool :=
  match cs with
  | [] => true
  | c :: cs' =>
      (Ascii.eqb c "e" || Ascii.eqb c "E") && nonempty_all is_digit (drop_sign cs')
  end%bool.

(** StrUnsignedDecimalLiteral *)
Definition unsigned_decimal (cs : list ascii) : bool :=
  if decide (cs = list_ascii_of_string "Infinity") then true
  else
    let '(int_part, rest) := span is_digit cs in
    match rest with
    | c :: rest' =>
        if Ascii.eqb c "." then
          let '(frac_part, rest'') := span is_digit rest' in
          match int_part, frac_part with
          | [], [] => false
          | _, _ => exponent_opt rest''
          end
        else
          match int_part with
          | [] => false
          | _ => exponent_opt rest
          end
    | [] =>
        match int_part with
        | [] => false
        | _ => true
        end
    end.

(** NonDecimalIntegerLiteral *)
Definition non_decimal_integer (cs : list ascii) : bool :=
  match cs with
  | z :: x :: ds =>
      Ascii.eqb z "0" &&
      (if (Ascii.eqb x "x" || Ascii.eqb x "X") then nonempty_all is_hex_digit ds
       else if (Ascii.eqb x "o" || Ascii.eqb x "O") then nonempty_all is_octal_digit ds
       else if (Ascii.eqb x "b" || Ascii.eqb x "B") then nonempty_all is_binary_digit ds
       else false)
  | _ => false
  end%bool.

(** [!Number.isNaN(Number(s))] *)
Definition is_numeric (s : string) : bool :=
  match trim (list_ascii_of_string s) with
  | [] => true
  | cs => (non_decimal_integer cs || unsigned_decimal (drop_sign cs))%bool
  end.

Definition Number_isNaN_Number (s : string) : bool := negb (is_numeric s).

(** *** Plain objects and the [in] operator *)

(** The property names of [Object.prototype]: every plain object inherits
    them. *)
Definition Object_prototype_keys : list string :=
  [ "constructor"; "__defineGetter__"; "__defineSetter__"; "hasOwnProperty";
    "__lookupGetter__"; "__lookupSetter__"; "isPrototypeOf";
    "propertyIsEnumerable"; "toString"; "valueOf"; "__proto__";
    "toLocaleString" ].

Definition inherited (k : string) : bool :=
  bool_decide (k ∈ Object_prototype_keys).

(** [k in o] for a plain object with own properties [o]. *)
Definition js_in {A : Type} (k : string) (o : gmap string A) : bool :=
  bool_decide (is_Some (o !! k)) || inherited k.

End JS.

(** ** [storeKey] and [channel] *)

(** [window.location.hash ? window.location.hash.substring(1) : undefined];
    an empty string is falsy, [substring(1)] drops the leading [#]. *)
Definition channel_of_hash (hash : string) : option string :=
  match hash with
  | EmptyString => None
  | String _ rest => Some rest
  end.

(** [(key, base?) => base ? `${key}.${base}` : "[[empty]]"].  [base] is
    falsy when it is undefined or the empty string. *)
Definition storeKey (key : string) (base : option string) : string :=
  match base with
  | Some (String c b) => key +:+ "." +:+ String c b
  | Some EmptyString | None => "[[empty]]"
  end.


(** ** Collaborators that are not part of [src/data.ts] *)

Module Duration.

Definition unit_factor (unit : string) : option Z :=
  if String.eqb unit "ms" then Some 1
  else if String.eqb unit "s" then Some 1000
  else if String.eqb unit "m" then Some 60000
  else if String.eqb unit "h" then Some 3600000
  else if String.eqb unit "d" then Some 86400000
  else None.

Definition digit_value (c : ascii) : Z := Z.of_nat (nat_of_ascii c) - 48.

(** The contribution of one token: [integer * factor], or 0 when the
    number is missing or the unit is not a known one. *)
Definition token_value (num : option Z) (unit : list ascii) : Z :=
  match num, unit_factor (string_of_list_ascii unit) with
  | Some n, Some f => n * f
  | _, _ => 0
  end.

Fixpoint scan (cs : list ascii) (num : option Z) (unit : list ascii)
    (total : Z) : Z :=
  match cs with
  | [] => total + token_value num unit
  | c :: cs' =>
      if JS.is_digit c then
        match unit with
        | [] => scan cs' (Some (10 * default 0 num + digit_value c)) [] total
        | _ => scan cs' (Some (digit_value c)) [] (total + token_value num unit)
        end
      else if JS.is_space c then
        scan cs' None [] (total + token_value num unit)
      else scan cs' num (unit ++ [c]) total
  end.

(** Modelled from the spec: [parseDuration] of [./core/duration], which
    is not among the sources.  A sequence of [<integer><unit>] tokens
    separated by optional white space, units [d], [h], [m], [s], [ms];
    the contributions are summed, a malformed token contributes 0.  The
    handlers below take [parseDuration] as a parameter; this definition
    only instantiates it in the concrete examples. *)
Definition parse (text : string) : Z :=
  scan (list_ascii_of_string text) None [] 0.

End Duration.

(** Modelled from the spec: [capitalize] of [./core/util], which is not
    among the sources: the first character is upper-cased and the rest is
    left as it is (the caller lower-cases the string first). *)
Definition capitalize (s : string) : string :=
  match s with
  | EmptyString => EmptyString
  | String c s' => String (JS.upper_char c) s'
  end.

(** ** Data model *)

(** A value read from the compiled [Role] enum object: a number under a
    symbolic key, a string under a numeric key (the reverse mapping), and
    under a key the object only inherits, that member of
    [Object.prototype]. *)
Inductive EnumVal : Type :=
  | Num (n : Z)
  | Str (s : string)
  | Member (k : string).

#[global] Instance EnumVal_eq_dec : EqDecision EnumVal.
Proof. solve_decision. Defined.

Module Role.
Definition None : Z := 0.
Definition User : Z := 1.
Definition Editor : Z := 2.
Definition Streamer : Z := 3.

(** The own properties of the object
    [enum Role { None = 0, User = 1, Editor = 2, Streamer = 3 }] compiles
    to. *)
Definition object : gmap string EnumVal :=
  list_to_map
    [ ("None", Num None); ("0", Str "None");
      ("User", Num User); ("1", Str "User");
      ("Editor", Num Editor); ("2", Str "Editor");
      ("Streamer", Num Streamer); ("3", Str "Streamer") ].

(** [Object.keys(Role).filter((v) => Number.isNaN(Number(v)))], in the
    order the enum declares them. *)
Definition roles : list string :=
  filter (fun v => JS.Number_isNaN_Number v = true)
    ["0"; "1"; "2"; "3"; "None"; "User"; "Editor"; "Streamer"].

(** [Role[k]], for a key [k in Role]. *)
Definition at_key (k : string) : EnumVal :=
  match object !! k with
  | Some v => v
  | _ => Member k
  end.
End Role.

(** [type User = { name: string; role: Role }].  The [role] written by the
    role command is whatever [Role[role]] holds (the cast to a record of
    numbers is unchecked), hence the field type. *)
Module User.
Record t : Type := mk { name : string; role : EnumVal }.
End User.
Abbreviation User := User.t.

Abbreviation Users := (gmap string User).
Abbreviation Preferences := (gmap string bool).
Abbreviation Aliases := (gmap string string).

(** NOTE: cooldowns are in milliseconds *)
Record Cooldown : Type := { perUser : Z; perSound : Z }.
Abbreviation Cooldowns := (gmap string Cooldown).

#[global] Instance Cooldown_eq_dec : EqDecision Cooldown.
Proof. solve_decision. Defined.

Definition defaultPrefs : Preferences := {[ "autoplay" := false ]}.

(** The five stores, by their current value. *)
Record Stores : Type := {
  prefix : string;
  users : Users;
  prefs : Preferences;
  aliases : Aliases;
  cooldowns : Cooldowns;
}.

(** The storage keys the five stores are created with. *)
Definition store_keys (channel : option string) : list string :=
  [ storeKey "prefix" channel; storeKey "users" channel;
    storeKey "preferences" channel; storeKey "aliases" channel;
    storeKey "cooldowns" channel ].

(** The initial value of every store. *)
Definition initial_stores (channel : option string) : Stores :=
  {| prefix := "!xd";
     users :=
       match channel with
       | Some (String c ch) =>
           {[ String c ch := User.mk (String c ch) (Num Role.Streamer) ]}
       | _ => ∅
       end;
     prefs := defaultPrefs;
     aliases := ∅;
     cooldowns := ∅ |}.

(** The player, as far as the handlers look at it: what is playing now, if
    anything, and the set of known sound names. *)
Record Player : Type := { playing : option string; sounds : gset string }.

(** Calls the handlers make on the outside world, in order. *)
Inductive Call : Type :=
  | console_log (line : string)
  | Player_play_call (sound requestedBy : string)
  | Player_stop_call
  | TTS_say (text : string).

#[global] Instance Call_eq_dec : EqDecision Call.
Proof. solve_decision. Defined.

Record World : Type := {
  stores : Stores;
  player : Player;
  calls : list Call;
}.

(** ** The handler monad: state passing over [World] *)

Definition M (A : Type) : Type := World -> A * World.

Definition ret {A : Type} (a : A) : M A := fun w => (a, w).

Definition bind {A B : Type} (m : M A) (k : A -> M B) : M B :=
  fun w => let '(a, w') := m w in k a w'.

Notation "x <- c1 ;; c2" := (bind c1 (fun x => c2))
  (at level 100, c1 at next level, right associativity).
Notation "c1 ;; c2" := (bind c1 (fun _ => c2))
  (at level 100, right associativity).

(** The world a handler leaves behind. *)
Definition run (m : M unit) (w : World) : World := snd (m w).

Definition read {A : Type} (f : Stores -> A) : M A :=
  fun w => (f (stores w), w).

Definition write (f : Stores -> Stores) : M unit :=
  fun w => (tt, {| stores := f (stores w); player := player w; calls := calls w |}).

Definition emit (c : Call) : M unit :=
  fun w => (tt, {| stores := stores w; player := player w; calls := calls w ++ [c] |}).

(** [Store.get] and [Store.update] of each store. *)
Definition prefs_get : M Preferences := read prefs.
Definition aliases_get : M Aliases := read aliases.
Definition cooldowns_get : M Cooldowns := read cooldowns.

Definition prefix_update (f : string -> string) : M unit :=
  write (fun s => {| prefix := f (prefix s); users := users s; prefs := prefs s;
                     aliases := aliases s; cooldowns := cooldowns s |}).
Definition users_update (f : Users -> Users) : M unit :=
  write (fun s => {| prefix := prefix s; users := f (users s); prefs := prefs s;
                     aliases := aliases s; cooldowns := cooldowns s |}).
Definition prefs_update (f : Preferences -> Preferences) : M unit :=
  write (fun s => {| prefix := prefix s; users := users s; prefs := f (prefs s);
                     aliases := aliases s; cooldowns := cooldowns s |}).
Definition aliases_update (f : Aliases -> Aliases) : M unit :=
  write (fun s => {| prefix := prefix s; users := users s; prefs := prefs s;
                     aliases := f (aliases s); cooldowns := cooldowns s |}).
Definition cooldowns_update (f : Cooldowns -> Cooldowns) : M unit :=
  write (fun s => {| prefix := prefix s; users := users s; prefs := prefs s;
                     aliases := aliases s; cooldowns := f (cooldowns s) |}).

Definition player_playing : M (option string) := fun w => (playing (player w), w).
Definition player_sounds : M (gset string) := fun w => (sounds (player w), w).

(** ** Cooldown records addressed by a computed field name *)

(** The argument of [_cooldownPreset]: ["user"] or ["sound"]. *)
Inductive Which : Type := for_user | for_sound.
Inductive Field : Type := PerUser | PerSound.

Definition get_field (f : Field) (c : Cooldown) : Z :=
  match f with
  | PerUser => perUser c
  | PerSound => perSound c
  end.

(** [c[f] = x] *)
Definition set_field (f : Field) (x : Z) (c : Cooldown) : Cooldown :=
  match f with
  | PerUser => {| perUser := x; perSound := perSound c |}
  | PerSound => {| perUser := perUser c; perSound := x |}
  end.

(** [{ [k1]: x1, [k2]: x2 }]: the two computed keys are written in order;
    the handlers only ever pass two different keys, so no field is left
    unset. *)
Definition object_literal (k1 : Field) (x1 : Z) (k2 : Field) (x2 : Z) : Cooldown :=
  set_field k2 x2 (set_field k1 x1 {| perUser := 0; perSound := 0 |}).

(** [const field = which === "user" ? "perUser" : "perSound"] *)
Definition field_of (which : Which) : Field :=
  match which with for_user => PerUser | for_sound => PerSound end.

(** [const secondary = which === "user" ? "perSound" : "perUser"] *)
Definition secondary_of (which : Which) : Field :=
  match which with for_user => PerSound | for_sound => PerUser end.

(** ** The command handlers *)

Section Handlers.

(** The string the member [Object.prototype[k]] converts to, as a property
    key and in a template literal: the source text of a built-in function,
    which the engine words, and [[object Object]] for [__proto__]. *)
Variable member_to_string : string -> string.

(** [parseDuration] of [./core/duration]. *)
Variable parseDuration : string -> Z.

(** [o[k]] for a key [k in o] of an object of strings, as a string: the own
    value, or else the inherited member. *)
Definition at_key (o : gmap string string) (k : string) : string :=
  match o !! k with
  | Some v => v
  | None => member_to_string k
  end.

(** [k in o ? o[k] : k] *)
Definition resolve_in (o : gmap string string) (k : string) : string :=
  if JS.js_in k o then at_key o k else k.

(** What [Player.play(sound, requestedBy)] and [Player.stop()] of
    [./core/player] do to the player. *)
Variable Player_play : Player -> string -> string -> Player.
Variable Player_stop : Player -> Player.

(** [player.play(sound, requestedBy)].  The player is handed the value
    itself; an inherited member is recorded by the string it converts
    to. *)
Definition player_play (sound requestedBy : string) : M unit :=
  fun w => (tt, {| stores := stores w;
                   player := Player_play (player w) sound requestedBy;
                   calls := calls w ++ [Player_play_call sound requestedBy] |}).

Definition player_stop : M unit :=
  fun w => (tt, {| stores := stores w;
                   player := Player_stop (player w);
                   calls := calls w ++ [Player_stop_call] |}).

(** [$play] *)
Definition play_handle (user : User) (sound : string) : M unit :=
  current <- player_playing ;;
  match current with
  | Some _ => ret tt
  | None =>
      (* normalize, accept first part of args as sound *)
      let sound := JS.split_space_0 (JS.toLowerCase sound) in
      (* resolve alias *)
      a <- aliases_get ;;
      let sound := if JS.js_in sound a then at_key a sound else sound in
      known <- player_sounds ;;
      if decide (sound ∈ known) then
        emit (console_log (User.name user +:+ " played " +:+ sound)) ;;
        player_play sound (User.name user)
      else ret tt
  end.

(** [$stop] *)
Definition stop_handle (user : User) : M unit :=
  current <- player_playing ;;
  match current with
  | None => ret tt
  | Some current =>
      emit (console_log (User.name user +:+ " stopped " +:+ current)) ;;
      player_stop
  end.

(** [$role] *)
Definition role_handle (user : User) (name role : string) : M unit :=
  (* enums also have numeric keys, which we want to ignore *)
  if negb (JS.Number_isNaN_Number role) then ret tt
  else
    let role := capitalize (JS.toLowerCase role) in
    (if JS.js_in role Role.object then
       users_update (fun v => <[name := User.mk name (Role.at_key role)]> v)
     else ret tt) ;;
    emit (console_log
            (User.name user +:+ " set role of " +:+ name +:+ " to " +:+ role)).

(** [!v[prefKey]]: an inherited member is an object, which is truthy; a
    missing key reads as [undefined], which is falsy. *)
Definition not_at (v : Preferences) (key : string) : bool :=
  match v !! key with
  | Some b => negb b
  | None => negb (JS.inherited key)
  end.

(** [`${prefs.get()[prefKey]}`] *)
Definition render_pref (v : Preferences) (key : string) : string :=
  match v !! key with
  | Some b => JS.bool_to_string b
  | None => if JS.inherited key then member_to_string key else "undefined"
  end.

(** [$prefs] *)
Definition prefs_handle (user : User) (key value : string) : M unit :=
  p <- prefs_get ;;
  if JS.js_in key p then
    (if String.eqb value "toggle" then
       prefs_update (fun v => <[key := not_at v key]> v)
     else if (String.eqb value "on" || String.eqb value "true"
              || String.eqb value "yes")%bool then
       prefs_update (fun v => <[key := true]> v)
     else if (String.eqb value "off" || String.eqb value "false"
              || String.eqb value "no")%bool then
       prefs_update (fun v => <[key := false]> v)
     else ret tt) ;;
    p' <- prefs_get ;;
    emit (console_log
            ("Updated preference " +:+ key +:+ " to " +:+ render_pref p' key))
  else ret tt.

(** [$alias._.set] *)
Definition alias_set_handle (user : User) (name as_ : string) : M unit :=
  let name := JS.toLowerCase name in
  let as_ := JS.toLowerCase as_ in
  known <- player_sounds ;;
  if decide (as_ ∈ known) then
    a <- aliases_get ;;
    let exists_ := JS.js_in name a in
    aliases_update (fun v => <[name := as_]> v) ;;
    emit (console_log
            (User.name user +:+ " " +:+
             (if exists_ then "updated" else "added") +:+
             " an alias: " +:+ name +:+ " -> " +:+ as_))
  else ret tt.

(** [$alias._.rm] *)
Definition alias_rm_handle (user : User) (name : string) : M unit :=
  let name := JS.toLowerCase name in
  aliases_update (fun v => delete name v) ;;
  emit (console_log (User.name user +:+ " removed an alias: " +:+ name)).

(** [$prefix] *)
Definition prefix_handle (user : User) (value : string) : M unit :=
  prefix_update (fun _ => value) ;;
  emit (console_log (User.name user +:+ " updated prefix to " +:+ value)).

(** [$say] *)
Definition say_handle (user : User) (text : string) : M unit :=
  emit (TTS_say text) ;;
  emit (console_log (User.name user +:+ " said " +:+ text +:+ " through TTS")).

(** The function passed to [cooldowns.update] by the [set] command of
    [_cooldownPreset(which)]: the record written under [name] has
    [[primary]: millis] and [[secondary]: v[name]?.perSound ?? 0]. *)
Definition set_update (which : Which) (name : string) (millis : Z)
    (v : Cooldowns) : Cooldowns :=
  let primary := field_of which in
  let secondary := secondary_of which in
  <[name := object_literal primary millis
              secondary (default 0 (perSound <$> v !! name))]> v.

(** The function passed to [cooldowns.update] by the [rm] command.  The
    copy is shallow, so the assignment writes into the record the previous
    snapshot holds too; the snapshot is replaced by the result.  When
    [name] is not an own key, the handler lets the function run only for an
    inherited one: the assignment then lands on that member of
    [Object.prototype], and [delete] finds no own key, so that the result
    has the properties of [v]. *)
Definition rm_update (which : Which) (name : string)
    (v : Cooldowns) : Cooldowns :=
  let field := field_of which in
  let cooldowns := alter (set_field field 0) name v in
  match cooldowns !! name with
  | Some c =>
      (* if both cooldowns are 0, we can delete the key *)
      if ((perSound c =? 0) && (perUser c =? 0))%bool
      then delete name cooldowns
      else cooldowns
  | None => cooldowns
  end.

(** [_cooldownPreset(which).set] *)
Definition cooldown_set_handle (which : Which) (user : User)
    (name value : string) : M unit :=
  let millis := parseDuration value in
  (* resolve alias *)
  a <- aliases_get ;;
  let name := if JS.js_in name a then at_key a name else name in
  known <- player_sounds ;;
  if decide (name ∈ known) then
    cooldowns_update (set_update which name millis) ;;
    emit (console_log
            (User.name user +:+ " set cooldown of " +:+ name +:+ " to " +:+ value))
  else ret tt.

(** [_cooldownPreset(which).rm] *)
Definition cooldown_rm_handle (which : Which) (user : User)
    (name : string) : M unit :=
  (* resolve alias *)
  a <- aliases_get ;;
  let name := if JS.js_in name a then at_key a name else name in
  known <- player_sounds ;;
  if decide (name ∈ known) then
    c <- cooldowns_get ;;
    if JS.js_in name c then
      cooldowns_update (rm_update which name) ;;
      emit (console_log (User.name user +:+ " removed cooldown of " +:+ name))
    else ret tt
  else ret tt.

(** The leaves of the [commands] tree with their arguments. *)
Inductive Invocation : Type :=
  | Play (sound : string)
  | Stop
  | SetRole (name role : string)
  | Prefs (key value : string)
  | AliasSet (name as_ : string)
  | AliasRm (name : string)
  | Prefix (value : string)
  | Say (text : string)
  | CooldownSet (which : Which) (name value : string)
  | CooldownRm (which : Which) (name : string).

(** The role a leaf [allows]. *)
Definition allows (i : Invocation) : Z :=
  match i with
  | Play _ | Say _ => Role.User
  | Stop | AliasSet _ _ | AliasRm _ | CooldownSet _ _ _ | CooldownRm _ _ =>
      Role.Editor
  | SetRole _ _ | Prefs _ _ | Prefix _ => Role.Streamer
  end.

Definition handle (user : User) (i : Invocation) : M unit :=
  match i with
  | Play sound => play_handle user sound
  | Stop => stop_handle user
  | SetRole name role => role_handle user name role
  | Prefs key value => prefs_handle user key value
  | AliasSet name as_ => alias_set_handle user name as_
  | AliasRm name => alias_rm_handle user name
  | Prefix value => prefix_handle user value
  | Say text => say_handle user text
  | CooldownSet which name value => cooldown_set_handle which user name value
  | CooldownRm which name => cooldown_rm_handle which user name
  end.

(** Messages handled one after the other, each to completion. *)
Fixpoint handle_all (msgs : list (User * Invocation)) (w : World) : World :=
  match msgs with
  | [] => w
  | (user, i) :: rest => handle_all rest (run (handle user i) w)
  end.

End Handlers.


(** ** Vocabulary of the properties *)

(** The name the cooldown commands look up in the sound set: what the
    alias table holds at the name, as given, when the name is [in] the
    table, else the name. *)
Definition cooldown_target (member_to_string : string -> string)
    (a : Aliases) (name : string) : string :=
  resolve_in member_to_string a name.

(** The name the play command looks up in the sound set: the lower-cased
    first word, or what the alias table holds at it. *)
Definition play_target (member_to_string : string -> string)
    (a : Aliases) (sound : string) : string :=
  resolve_in member_to_string a (JS.split_space_0 (JS.toLowerCase sound)).

(** Alias resolution as the design document words it: lower-case the name;
    if that is an alias, its target; else the name. *)
Definition resolve (a : Aliases) (name : string) : string :=
  match a !! JS.toLowerCase name with
  | Some target => target
  | None => name
  end.

(** The sparseness invariant of the cooldown table: a key is present only
    with a nonzero field. *)
Definition sparse (t : Cooldowns) : Prop :=
  map_Forall (fun _ c => perUser c <> 0 \/ perSound c <> 0) t.

#[global] Instance sparse_dec (t : Cooldowns) : Decision (sparse t).
Proof. unfold sparse. apply _. Defined.

(** The role a symbolic role name stands for. *)
Definition roleByName (s : string) : option Z :=
  if String.eqb s "None" then Some Role.None
  else if String.eqb s "User" then Some Role.User
  else if String.eqb s "Editor" then Some Role.Editor
  else if String.eqb s "Streamer" then Some Role.Streamer
  else None.

(** The value keywords of the preference command. *)
Definition pref_keywords : list string :=
  ["toggle"; "on"; "true"; "yes"; "off"; "false"; "no"].

(** A well-shaped invocation whose argument the handler rejects: a name
    that does not come out as a known sound, a preference key that is not
    [in] the preferences, an unrecognized value keyword, a numeric role
    name, or an ASCII role name that is neither one of the four roles nor a
    member name of [Object.prototype]. *)
Definition semantically_invalid (member_to_string : string -> string)
    (w : World) (i : Invocation) : Prop :=
  match i with
  | Play sound =>
      play_target member_to_string (aliases (stores w)) sound ∉ sounds (player w)
  | CooldownSet _ name _ | CooldownRm _ name =>
      cooldown_target member_to_string (aliases (stores w)) name ∉ sounds (player w)
  | Prefs key value =>
      JS.js_in key (prefs (stores w)) = false \/ value ∉ pref_keywords
  | SetRole _ role =>
      JS.is_numeric role = true \/
      (JS.is_ascii role = true /\
       roleByName (capitalize (JS.toLowerCase role)) = None /\
       JS.inherited (capitalize (JS.toLowerCase role)) = false)
  | _ => False
  end.

(** A run of play requests, as messages. *)
Definition play_requests (reqs : list (User * string)) : list (User * Invocation) :=
  map (fun r => (r.1, Play r.2)) reqs.

Definition is_play_call (c : Call) : bool :=
  match c with Player_play_call _ _ => true | _ => false end.

Definition is_log (c : Call) : bool :=
  match c with console_log _ => true | _ => false end.

(** How many times [Player.play] has been invoked. *)
Definition plays (cs : list Call) : nat := length (List.filter is_play_call cs).

(** ** A concrete player and concrete worlds for the examples *)

Module Example.

(** Modelled from the spec: [Player.play] and [Player.stop] of
    [./core/player], which is not among the sources: playing a sound makes
    it the one currently playing, stopping leaves nothing playing. *)
Definition Player_play (p : Player) (sound requestedBy : string) : Player :=
  {| playing := Some sound; sounds := sounds p |}.

Definition Player_stop (p : Player) : Player :=
  {| playing := None; sounds := sounds p |}.

(** The conversion of the members of [Object.prototype] to a string in
    V8: the built-in functions print as native code under their own name,
    [constructor] being [Object], and [__proto__] is the prototype
    object. *)
Definition member_to_string (k : string) : string :=
  if String.eqb k "__proto__" then "[object Object]"
  else if String.eqb k "constructor" then "function Object() { [native code] }"
  else "function " +:+ k +:+ "() { [native code] }".

Definition streamer : User := User.mk "chan" (Num Role.Streamer).

(** A fresh world on channel [chan] with the given known sounds. *)
Definition fresh (known : gset string) : World :=
  {| stores := initial_stores (Some "chan");
     player := {| playing := None; sounds := known |};
     calls := [] |}.

(** A world whose cooldown table is [t]. *)
Definition with_cooldowns (known : gset string) (t : Cooldowns) : World :=
  {| stores :=
       {| prefix := "!xd"; users := ∅; prefs := defaultPrefs; aliases := ∅;
          cooldowns := t |};
     player := {| playing := None; sounds := known |};
     calls := [] |}.

(** The same world with a sound playing. *)
Definition busy (known : gset string) (current : string) : World :=
  {| stores := initial_stores (Some "chan");
     player := {| playing := Some current; sounds := known |};
     calls := [] |}.

End Example.

(** ** Vocabulary of the further properties *)

(** The parts of the world a handler can write to. *)
Inductive Part : Type :=
  | PrefixStore | UsersStore | PrefsStore | AliasesStore | CooldownsStore
  | ThePlayer.

#[global] Instance Part_eq_dec : EqDecision Part.
Proof. solve_decision. Defined.

(** The one part each command writes to, if any. *)
Definition writes (i : Invocation) : option Part :=
  match i with
  | Play _ | Stop => Some ThePlayer
  | SetRole _ _ => Some UsersStore
  | Prefs _ _ => Some PrefsStore
  | AliasSet _ _ | AliasRm _ => Some AliasesStore
  | Prefix _ => Some PrefixStore
  | CooldownSet _ _ _ | CooldownRm _ _ => Some CooldownsStore
  | Say _ => None
  end.

(** Part [p] is the same in both worlds. *)
Definition same_part (p : Part) (w w' : World) : Prop :=
  match p with
  | PrefixStore => prefix (stores w') = prefix (stores w)
  | UsersStore => users (stores w') = users (stores w)
  | PrefsStore => prefs (stores w') = prefs (stores w)
  | AliasesStore => aliases (stores w') = aliases (stores w)
  | CooldownsStore => cooldowns (stores w') = cooldowns (stores w)
  | ThePlayer => player w' = player w
  end.

(** Every user is stored under their own name, with one of the four role
    numbers or with the object prototype that [Role["__proto__"]] reads. *)
Definition users_wf (u : Users) : Prop :=
  map_Forall
    (fun k x =>
       User.name x = k /\
       ((exists n, User.role x = Num n /\ 0 <= n <= 3) \/
        User.role x = Member "__proto__")) u.

(** Every alias key is lower-case and every alias target is in [known]. *)
Definition aliases_wf (known : gset string) (a : Aliases) : Prop :=
  map_Forall (fun k target => JS.toLowerCase k = k /\ target ∈ known) a.

Definition is_player_call (c : Call) : bool :=
  match c with Player_play_call _ _ | Player_stop_call => true | _ => false end.

Definition is_tts_call (c : Call) : bool :=
  match c with TTS_say _ => true | _ => false end.

Definition is_stop_call (c : Call) : bool :=
  match c with Player_stop_call => true | _ => false end.

(** A run of stop requests, as messages. *)
Definition stop_requests (reqs : list User) : list (User * Invocation) :=
  map (fun u => (u, Stop)) reqs.

(** ** Proof tactics *)

(** Closes a decidable closed goal by evaluation. *)
Ltac by_evaluation := apply (bool_decide_unpack _); vm_compute; exact I.

Ltac unfold_handler :=
  unfold run, handle, play_handle, stop_handle, role_handle, prefs_handle,
    alias_set_handle, alias_rm_handle, prefix_handle, say_handle,
    cooldown_set_handle, cooldown_rm_handle, player_play, player_stop,
    prefs_get, aliases_get, cooldowns_get, prefix_update, users_update,
    prefs_update, aliases_update, cooldowns_update, player_playing,
    player_sounds, read, write, emit, bind, ret,
    cooldown_target, play_target, resolve_in;
  cbn [fst snd stores player calls prefix users prefs aliases cooldowns].

(** Splits a handler run into the ways its tests can go. *)
Ltac handler_cases :=
  unfold_handler; repeat (first [case_decide | case_match]); simplify_eq/=.

(** * Properties *)

(** ** Store keys *)

(** C10: with no channel, [storeKey] returns ["[[empty]]"] whatever the key
    name, so the five stores are created under one and the same storage
    key. *)
Theorem storeKey_without_channel :
  channel_of_hash "" = None /\
  (forall key : string, storeKey key None = "[[empty]]") /\
  store_keys None = replicate 5 "[[empty]]".
Proof. repeat split. Qed.

(** With a channel the keys are namespaced and pairwise different. *)
Lemma store_keys_with_channel :
  store_keys (channel_of_hash "#chan") =
    ["prefix.chan"; "users.chan"; "preferences.chan"; "aliases.chan";
     "cooldowns.chan"].
Proof. reflexivity. Qed.

(** ** The cooldown commands *)

Section CooldownFacts.

Variable member_to_string : string -> string.
Variable parseDuration : string -> Z.

#[local] Abbreviation cooldown_target := (cooldown_target member_to_string).
#[local] Abbreviation cooldown_set_handle := (cooldown_set_handle member_to_string).
#[local] Abbreviation cooldown_rm_handle := (cooldown_rm_handle member_to_string).

Implicit Types (w : World) (v : Cooldowns) (which : Which) (c : Cooldown).

(** On a name that is not an own key of the table, the function of [rm]
    gives back the table. *)
Lemma rm_update_None which s v :
  v !! s = None -> rm_update which s v = v.
Proof.
  intros Hs. unfold rm_update. cbn zeta.
  assert (Ha : alter (set_field (field_of which) 0) s v = v).
  { apply map_eq; intros k. destruct (decide (s = k)) as [<-|Hne].
    - by rewrite lookup_alter_eq, Hs.
    - by rewrite lookup_alter_ne. }
  by rewrite Ha, Hs.
Qed.

(** What the [set] command leaves in the cooldown store. *)
Lemma cooldown_set_cooldowns which user name value w :
  cooldowns (stores (run (cooldown_set_handle parseDuration which user name value) w)) =
    let s := cooldown_target (aliases (stores w)) name in
    if decide (s ∈ sounds (player w))
    then set_update which s (parseDuration value) (cooldowns (stores w))
    else cooldowns (stores w).
Proof.
  unfold_handler.
  cbn zeta. case_decide; reflexivity.
Qed.

(** What the [rm] command leaves in the cooldown store. *)
Lemma cooldown_rm_cooldowns which user name w :
  cooldowns (stores (run (cooldown_rm_handle which user name) w)) =
    let s := cooldown_target (aliases (stores w)) name in
    if decide (s ∈ sounds (player w)) then
      if decide (is_Some (cooldowns (stores w) !! s))
      then rm_update which s (cooldowns (stores w))
      else cooldowns (stores w)
    else cooldowns (stores w).
Proof.
  unfold_handler.
  cbn zeta. case_decide; [|reflexivity].
  destruct (JS.js_in _ (cooldowns (stores w))) eqn:Hin; cbn;
    case_decide as Hrec; try reflexivity.
  - apply rm_update_None. destruct (cooldowns (stores w) !! _); [|done].
    exfalso. eauto.
  - unfold JS.js_in in Hin. rewrite bool_decide_eq_true_2 in Hin by done.
    discriminate.
Qed.

(** A command that returns early leaves the whole world as it was. *)
Lemma cooldown_set_unknown which user name value w :
  cooldown_target (aliases (stores w)) name ∉ sounds (player w) ->
  run (cooldown_set_handle parseDuration which user name value) w = w.
Proof.
  unfold_handler. intros Hs.
  by rewrite decide_False.
Qed.

Lemma cooldown_rm_unknown which user name w :
  cooldown_target (aliases (stores w)) name ∉ sounds (player w) ->
  run (cooldown_rm_handle which user name) w = w.
Proof.
  unfold_handler. intros Hs.
  by rewrite decide_False.
Qed.

(** Without an own record, [rm] leaves the table as it was (for a name the
    table inherits it still logs). *)
Lemma cooldown_rm_no_record which user name w :
  cooldowns (stores w) !! cooldown_target (aliases (stores w)) name = None ->
  cooldowns (stores (run (cooldown_rm_handle which user name) w)) =
  cooldowns (stores w).
Proof.
  intros Hs. rewrite cooldown_rm_cooldowns. cbn zeta.
  case_decide; [|done]. rewrite decide_False; [done |].
  rewrite Hs. by intros [? ?].
Qed.

(** The record [set] writes: the selected field is the new value; the
    other one is the previous [perSound], whichever field was selected. *)
Lemma set_update_lookup which s millis v :
  set_update which s millis v !! s =
    Some (match which with
          | for_user =>
              {| perUser := millis;
                 perSound := default 0 (perSound <$> v !! s) |}
          | for_sound =>
              {| perUser := default 0 (perSound <$> v !! s);
                 perSound := millis |}
          end).
Proof. unfold set_update. rewrite lookup_insert_eq. by destruct which. Qed.

Lemma set_update_other which s millis v s' :
  s <> s' -> set_update which s millis v !! s' = v !! s'.
Proof. intros. unfold set_update. by rewrite lookup_insert_ne. Qed.

Lemma get_set_field f x c : get_field f (set_field f x c) = x.
Proof. by destruct f. Qed.

Lemma get_set_secondary which x c :
  get_field (secondary_of which) (set_field (field_of which) x c) =
  get_field (secondary_of which) c.
Proof. by destruct which. Qed.

(** [rm] on an existing record: the key goes when the other field is 0,
    and stays with the selected field cleared otherwise. *)
Lemma rm_update_Some which s v c :
  v !! s = Some c ->
  rm_update which s v =
    if decide (get_field (secondary_of which) c = 0)
    then delete s v
    else <[s := set_field (field_of which) 0 c]> v.
Proof.
  intros Hc. unfold rm_update. cbn zeta.
  rewrite lookup_alter_eq, Hc. cbn.
  assert (Ha : alter (set_field (field_of which) 0) s v =
               <[s := set_field (field_of which) 0 c]> v).
  { apply map_eq; intros k. destruct (decide (s = k)) as [<-|Hne].
    - by rewrite lookup_alter_eq, lookup_insert_eq, Hc.
    - by rewrite lookup_alter_ne, lookup_insert_ne. }
  rewrite Ha.
  destruct which, c as [pu ps]; cbn; case_decide as Hz; subst; cbn.
  - by rewrite delete_insert_eq.
  - destruct (Z.eqb_spec ps 0); [done | reflexivity].
  - by rewrite delete_insert_eq.
  - destruct (Z.eqb_spec pu 0); [done | reflexivity].
Qed.

End CooldownFacts.

Section CooldownClaims.

Variable member_to_string : string -> string.
Variable parseDuration : string -> Z.

#[local] Abbreviation cooldown_target := (cooldown_target member_to_string).
#[local] Abbreviation cooldown_set_handle := (cooldown_set_handle member_to_string).
#[local] Abbreviation cooldown_rm_handle := (cooldown_rm_handle member_to_string).

Implicit Types (w : World) (which : Which) (c : Cooldown).

(** X17: when the name comes out of the handler's alias lookup as a known
    sound that has a record of its own, [rm] clears the selected field and
    keeps the other one; the key is removed when the other field is 0 and
    stays, with the selected field at 0, when it is not. Other sounds are
    not touched. *)
Theorem cooldown_rm_clears which user name w c :
  let s := cooldown_target (aliases (stores w)) name in
  let t := cooldowns (stores w) in
  let t' := cooldowns (stores (run (cooldown_rm_handle which user name) w)) in
  s ∈ sounds (player w) ->
  t !! s = Some c ->
  (get_field (secondary_of which) c = 0 -> t' = delete s t /\ t' !! s = None) /\
  (get_field (secondary_of which) c <> 0 ->
     t' = <[s := set_field (field_of which) 0 c]> t /\
     exists c', t' !! s = Some c' /\
       get_field (field_of which) c' = 0 /\
       get_field (secondary_of which) c' = get_field (secondary_of which) c) /\
  (forall s', s' <> s -> t' !! s' = t !! s').
Proof.
  intros s t t' Hs Hc. subst t'.
  rewrite cooldown_rm_cooldowns. cbn zeta. fold s t.
  rewrite decide_True by done.
  rewrite decide_True by (rewrite Hc; eauto).
  rewrite (rm_update_Some which s t c Hc).
  split; [|split].
  - intros Hz. rewrite decide_True by done.
    split; [done | apply lookup_delete_eq].
  - intros Hnz. rewrite decide_False by done.
    split; [done |]. eexists. rewrite lookup_insert_eq.
    split; [done |]. by rewrite get_set_field, get_set_secondary.
  - intros s' Hne. case_decide.
    + by rewrite lookup_delete_ne.
    + by rewrite lookup_insert_ne.
Qed.

(** C6: [set] and [rm] leave the table as it is when the name, after the
    alias lookup, is not a known sound; [rm] also does when the sound has
    no record. *)
Theorem cooldown_noop which user name value w :
  let s := cooldown_target (aliases (stores w)) name in
  let t := cooldowns (stores w) in
  (s ∉ sounds (player w) ->
     cooldowns (stores (run (cooldown_set_handle parseDuration which user name value) w)) = t /\
     cooldowns (stores (run (cooldown_rm_handle which user name) w)) = t) /\
  (t !! s = None ->
     cooldowns (stores (run (cooldown_rm_handle which user name) w)) = t).
Proof.
  intros s t. split.
  - intros Hs. by rewrite cooldown_set_unknown, cooldown_rm_unknown.
  - intros Hn. by rewrite cooldown_rm_no_record.
Qed.

(** C2, as amended: [rm] keeps the cooldown table sparse, and so does
    [set] when the parsed duration is not 0. *)
Theorem sparse_preserved which user name value w :
  sparse (cooldowns (stores w)) ->
  sparse (cooldowns (stores (run (cooldown_rm_handle which user name) w))) /\
  (parseDuration value <> 0 ->
   sparse (cooldowns (stores
     (run (cooldown_set_handle parseDuration which user name value) w)))).
Proof.
  intros Hsp. split.
  - rewrite cooldown_rm_cooldowns. cbn zeta.
    case_decide; [|done]. case_decide as Hrec; [|done].
    destruct Hrec as [c Hc]. rewrite (rm_update_Some _ _ _ c Hc).
    case_decide as Hz.
    + by apply map_Forall_delete.
    + apply map_Forall_insert_2; [|done].
      destruct which, c as [pu ps]; cbn in *; [by right | by left].
  - intros Hnz. rewrite cooldown_set_cooldowns. cbn zeta.
    case_decide; [|done]. unfold set_update.
    apply map_Forall_insert_2; [|done].
    destruct which; cbn; [by left | by right].
Qed.

End CooldownClaims.

Section CooldownExamples.

#[local] Abbreviation cooldown_set_handle :=
  (cooldown_set_handle Example.member_to_string).
#[local] Abbreviation cooldown_rm_handle :=
  (cooldown_rm_handle Example.member_to_string).

(** C1: on an empty table, setting the per-user cooldown of a sound to 5s
    and then its per-sound cooldown to 3s leaves [perUser] at 0: the second
    command fills the other field from the previous [perSound]. *)
Theorem set_sound_after_set_user :
  let w0 := Example.fresh {["foo"]} in
  let w1 := run (cooldown_set_handle Duration.parse for_user Example.streamer "foo" "5s") w0 in
  let w2 := run (cooldown_set_handle Duration.parse for_sound Example.streamer "foo" "3s") w1 in
  cooldowns (stores w0) = ∅ /\
  cooldowns (stores w1) !! "foo" = Some {| perUser := 5000; perSound := 0 |} /\
  cooldowns (stores w2) !! "foo" = Some {| perUser := 0; perSound := 3000 |}.
Proof. repeat split; vm_compute; reflexivity. Qed.

(** The per-user command does keep the other field. *)
Lemma set_user_after_set_sound :
  let w0 := Example.fresh {["foo"]} in
  let w1 := run (cooldown_set_handle Duration.parse for_sound Example.streamer "foo" "3s") w0 in
  let w2 := run (cooldown_set_handle Duration.parse for_user Example.streamer "foo" "5s") w1 in
  cooldowns (stores w2) !! "foo" = Some {| perUser := 5000; perSound := 3000 |}.
Proof. vm_compute; reflexivity. Qed.

(** C2, as stated, fails: setting a cooldown of [0s] on a sound without a
    record stores a record with both fields 0. *)
Lemma set_zero_breaks_sparse :
  let w0 := Example.fresh {["foo"]} in
  let w1 := run (cooldown_set_handle Duration.parse for_user Example.streamer "foo" "0s") w0 in
  sparse (cooldowns (stores w0)) /\
  cooldowns (stores w1) !! "foo" = Some {| perUser := 0; perSound := 0 |} /\
  ~ sparse (cooldowns (stores w1)).
Proof.
  cbn zeta. split; [|split].
  - apply map_Forall_empty.
  - vm_compute; reflexivity.
  - intros Hsp.
    assert (Hl : cooldowns (stores (run (cooldown_set_handle Duration.parse
                   for_user Example.streamer "foo" "0s") (Example.fresh {["foo"]})))
                 !! "foo" = Some {| perUser := 0; perSound := 0 |})
      by (vm_compute; reflexivity).
    destruct (Hsp _ _ Hl) as [H | H]; by apply H.
Qed.

Lemma sparse_preserved_witness :
  let w := Example.with_cooldowns {["foo"]} {[ "foo" := {| perUser := 5000; perSound := 3000 |} ]} in
  sparse (cooldowns (stores (run (cooldown_rm_handle for_user Example.streamer "foo") w))) /\
  sparse (cooldowns (stores
    (run (cooldown_set_handle Duration.parse for_sound Example.streamer "foo" "1m") w))).
Proof.
  cbn zeta.
  assert (Hsp : sparse (cooldowns (stores (Example.with_cooldowns {["foo"]}
                  {[ "foo" := {| perUser := 5000; perSound := 3000 |} ]}))))
    by by_evaluation.
  destruct (sparse_preserved Example.member_to_string Duration.parse for_sound Example.streamer "foo" "1m" _ Hsp)
    as [_ Hset].
  destruct (sparse_preserved Example.member_to_string Duration.parse for_user Example.streamer "foo" "1m" _ Hsp)
    as [Hrm _].
  split; [exact Hrm | apply Hset; vm_compute; discriminate].
Defined.

Lemma cooldown_rm_clears_witness :
  let w := Example.with_cooldowns {["foo"]} {[ "foo" := {| perUser := 5000; perSound := 3000 |} ]} in
  let w' := Example.with_cooldowns {["foo"]} {[ "foo" := {| perUser := 5000; perSound := 0 |} ]} in
  cooldowns (stores (run (cooldown_rm_handle for_user Example.streamer "foo") w)) !! "foo"
    = Some {| perUser := 0; perSound := 3000 |} /\
  cooldowns (stores (run (cooldown_rm_handle for_user Example.streamer "foo") w')) !! "foo"
    = None.
Proof.
  cbn zeta. split.
  - destruct (cooldown_rm_clears Example.member_to_string for_user Example.streamer "foo"
                (Example.with_cooldowns {["foo"]}
                   {[ "foo" := {| perUser := 5000; perSound := 3000 |} ]})
                {| perUser := 5000; perSound := 3000 |})
      as (_ & Hkeep & _); [by_evaluation | vm_compute; reflexivity |].
    destruct Hkeep as [-> _]; [vm_compute; discriminate |].
    vm_compute; reflexivity.
  - destruct (cooldown_rm_clears Example.member_to_string for_user Example.streamer "foo"
                (Example.with_cooldowns {["foo"]}
                   {[ "foo" := {| perUser := 5000; perSound := 0 |} ]})
                {| perUser := 5000; perSound := 0 |})
      as (Hgone & _ & _); [by_evaluation | vm_compute; reflexivity |].
    destruct Hgone as [_ Hn]; [reflexivity | exact Hn].
Defined.

Lemma cooldown_noop_witness :
  let w := Example.with_cooldowns {["foo"]} {[ "foo" := {| perUser := 5000; perSound := 3000 |} ]} in
  cooldowns (stores (run (cooldown_set_handle Duration.parse for_user Example.streamer "bar" "5s") w))
    = cooldowns (stores w) /\
  cooldowns (stores (run (cooldown_rm_handle for_sound Example.streamer "bar") w))
    = cooldowns (stores w) /\
  cooldowns (stores (run (cooldown_rm_handle for_sound Example.streamer "foo")
                       (Example.fresh {["foo"]})))
    = cooldowns (stores (Example.fresh {["foo"]})).
Proof.
  cbn zeta.
  destruct (cooldown_noop Example.member_to_string Duration.parse for_user Example.streamer "bar" "5s"
              (Example.with_cooldowns {["foo"]}
                 {[ "foo" := {| perUser := 5000; perSound := 3000 |} ]}))
    as [Hunknown _].
  destruct (cooldown_noop Example.member_to_string Duration.parse for_sound Example.streamer "bar" "5s"
              (Example.with_cooldowns {["foo"]}
                 {[ "foo" := {| perUser := 5000; perSound := 3000 |} ]}))
    as [Hunknown' _].
  destruct (cooldown_noop Example.member_to_string Duration.parse for_sound Example.streamer "foo" "5s"
              (Example.fresh {["foo"]}))
    as [_ Hnorec].
  split; [|split].
  - apply Hunknown. by_evaluation.
  - apply Hunknown'. by_evaluation.
  - apply Hnorec. vm_compute; reflexivity.
Defined.

End CooldownExamples.

(** ** Role names *)

Lemma Role_object_lookup (k : string) :
  Role.object !! k =
    if String.eqb k "None" then Some (Num Role.None)
    else if String.eqb k "0" then Some (Str "None")
    else if String.eqb k "User" then Some (Num Role.User)
    else if String.eqb k "1" then Some (Str "User")
    else if String.eqb k "Editor" then Some (Num Role.Editor)
    else if String.eqb k "2" then Some (Str "Editor")
    else if String.eqb k "Streamer" then Some (Num Role.Streamer)
    else if String.eqb k "3" then Some (Str "Streamer")
    else None.
Proof.
  unfold Role.object. cbn [list_to_map foldr uncurry fst snd].
  repeat match goal with
         | |- context [String.eqb k ?s] =>
             destruct (String.eqb_spec k s) as [-> | ?];
             [ vm_compute; reflexivity
             | rewrite lookup_insert_ne by congruence ]
         end.
  apply lookup_empty.
Qed.

(** Case normalization does not produce a digit out of anything else. *)
Lemma normalize_char_digit (c : ascii) :
  JS.is_digit (JS.upper_char (JS.lower_char c)) = true ->
  JS.upper_char (JS.lower_char c) = c.
Proof.
  destruct c as [[] [] [] [] [] [] [] []]; vm_compute; congruence.
Qed.

Lemma normalize_to_digit (role : string) (d : ascii) :
  JS.is_digit d = true ->
  capitalize (JS.toLowerCase role) = String d EmptyString ->
  role = String d EmptyString.
Proof.
  intros Hd. destruct role as [|c [|c' r]]; cbn; try discriminate.
  intros [= Hc]. rewrite <- Hc in Hd. apply normalize_char_digit in Hd.
  congruence.
Qed.

(** Past the numeric guard, the enum object is only ever hit at a symbolic
    key, where it holds the role's number. *)
Lemma Role_object_normalized (role : string) :
  JS.is_numeric role = false ->
  Role.object !! capitalize (JS.toLowerCase role) =
  Num <$> roleByName (capitalize (JS.toLowerCase role)).
Proof.
  intros Hnum. rewrite Role_object_lookup. unfold roleByName.
  set (k := capitalize (JS.toLowerCase role)) in *.
  assert (Hdigit : forall d : ascii,
             JS.is_digit d = true -> JS.is_numeric (String d EmptyString) = true ->
             k <> String d EmptyString).
  { intros d Hd Hn Hk. apply normalize_to_digit in Hk; [|done].
    subst role. congruence. }
  repeat match goal with
         | |- context [String.eqb k ?s] =>
             destruct (String.eqb_spec k s) as [Hk | ?];
             [ first [ reflexivity | exfalso; revert Hk; by apply Hdigit ] |]
         end.
  reflexivity.
Qed.

(** Lower-casing leaves no ASCII capital, and capitalizing does not give a
    small letter. *)
Lemma lower_char_not_upper (c : ascii) : JS.is_upper (JS.lower_char c) = false.
Proof. destruct c as [[] [] [] [] [] [] [] []]; reflexivity. Qed.

Lemma upper_char_not_lower (c : ascii) : JS.is_lower (JS.upper_char c) = false.
Proof. destruct c as [[] [] [] [] [] [] [] []]; reflexivity. Qed.

Lemma toLowerCase_has_upper (s : string) : JS.has_upper (JS.toLowerCase s) = false.
Proof.
  unfold JS.has_upper. induction s as [|c s IH]; [done |].
  cbn. by rewrite lower_char_not_upper, IH.
Qed.

Lemma normalized_shape (role : string) :
  match capitalize (JS.toLowerCase role) with
  | EmptyString => True
  | String c t => JS.is_lower c = false /\ JS.has_upper t = false
  end.
Proof.
  destruct role as [|c r]; [done |]. cbn [JS.toLowerCase capitalize].
  split; [apply upper_char_not_lower | apply toLowerCase_has_upper].
Qed.

(** Of the member names of [Object.prototype] only [__proto__] is a
    case-normalized string. *)
Lemma normalized_inherited (role : string) :
  JS.inherited (capitalize (JS.toLowerCase role)) = true ->
  capitalize (JS.toLowerCase role) = "__proto__".
Proof.
  pose proof (normalized_shape role) as Hshape.
  unfold JS.inherited, JS.Object_prototype_keys. intros Hin.
  apply bool_decide_eq_true_1 in Hin. rewrite !elem_of_cons, elem_of_nil in Hin.
  repeat (destruct Hin as [Hin | Hin];
          [ rewrite Hin in Hshape |- *;
            first [ reflexivity
                  | exfalso; destruct Hshape as [H1 H2];
                    vm_compute in H1, H2; congruence ] |]).
  done.
Qed.

(** What the role command leaves in the users mapping: nothing new for a
    numeric role string; else the role number, for one of the four names
    after normalization, or the prototype object for [__proto__]. *)
Lemma role_handle_users (user : User) (name role : string) (w : World) :
  users (stores (run (role_handle user name role) w)) =
    if JS.is_numeric role then users (stores w)
    else
      match roleByName (capitalize (JS.toLowerCase role)) with
      | Some r => <[name := User.mk name (Num r)]> (users (stores w))
      | None =>
          if String.eqb (capitalize (JS.toLowerCase role)) "__proto__"
          then <[name := User.mk name (Member "__proto__")]> (users (stores w))
          else users (stores w)
      end.
Proof.
  unfold_handler. unfold JS.Number_isNaN_Number. rewrite negb_involutive.
  destruct (JS.is_numeric role) eqn:Hnum; [reflexivity |].
  unfold JS.js_in, Role.at_key. rewrite (Role_object_normalized role Hnum).
  destruct (roleByName (capitalize (JS.toLowerCase role))) as [r|]; cbn.
  - reflexivity.
  - destruct (JS.inherited _) eqn:Hin.
    + rewrite (normalized_inherited role Hin). reflexivity.
    + destruct (String.eqb_spec (capitalize (JS.toLowerCase role)) "__proto__")
        as [Heq | _]; [|reflexivity].
      rewrite Heq in Hin. discriminate.
Qed.

(** X19: for an ASCII role string, the role command rejects every
    numeric-looking one, and otherwise looks the case-normalized string
    (first letter capitalized, rest lower-cased) up in the enum object: the
    users mapping gets the role number on one of None, User, Editor,
    Streamer, the prototype object on [__proto__], and is left alone on
    anything else. *)
Theorem role_lookup_normalized (user : User) (name role : string) (w : World) :
  JS.is_ascii role = true ->
  users (stores (run (role_handle user name role) w)) =
    if JS.is_numeric role then users (stores w)
    else
      match roleByName (capitalize (JS.toLowerCase role)) with
      | Some r => <[name := User.mk name (Num r)]> (users (stores w))
      | None =>
          if String.eqb (capitalize (JS.toLowerCase role)) "__proto__"
          then <[name := User.mk name (Member "__proto__")]> (users (stores w))
          else users (stores w)
      end.
Proof. intros _. apply role_handle_users. Qed.

Lemma role_lookup_normalized_witness :
  users (stores (run (role_handle Example.streamer "bob" "eDiToR") (Example.fresh ∅))) =
    <["bob" := User.mk "bob" (Num Role.Editor)]> (users (stores (Example.fresh ∅))).
Proof.
  rewrite (role_lookup_normalized Example.streamer "bob" "eDiToR" (Example.fresh ∅))
    by reflexivity.
  reflexivity.
Defined.

(** The normalization and the guard at work. *)
Lemma role_examples :
  let w := Example.fresh ∅ in
  let after role := users (stores (run (role_handle Example.streamer "bob" role) w)) !! "bob" in
  after "eDiToR" = Some (User.mk "bob" (Num Role.Editor)) /\
  after "STREAMER" = Some (User.mk "bob" (Num Role.Streamer)) /\
  after "none" = Some (User.mk "bob" (Num Role.None)) /\
  after "2" = None /\ after "0x2" = None /\ after "" = None /\
  after "Infinity" = None /\ after "wizard" = None /\ after "constructor" = None.
Proof. repeat split; vm_compute; reflexivity. Qed.

(** C7: the role command matches more than the four role names: the role
    string [__proto__] is not numeric and is its own normalization, the
    enum object inherits a member of that name, and the user is stored with
    the prototype object as their role. *)
Theorem role_accepts_proto :
  let w := Example.fresh ∅ in
  let w' := run (role_handle Example.streamer "bob" "__proto__") w in
  JS.Number_isNaN_Number "__proto__" = true /\
  capitalize (JS.toLowerCase "__proto__") = "__proto__" /\
  roleByName "__proto__" = None /\
  Role.object !! "__proto__" = None /\
  JS.js_in "__proto__" Role.object = true /\
  users (stores w) !! "bob" = None /\
  users (stores w') !! "bob" = Some (User.mk "bob" (Member "__proto__")) /\
  calls w' = [console_log "chan set role of bob to __proto__"].
Proof. repeat split; vm_compute; reflexivity. Qed.

(** ** Rejected arguments, playback gating *)

Lemma not_keyword (value : string) :
  value ∉ pref_keywords ->
  String.eqb value "toggle" = false /\
  (String.eqb value "on" || String.eqb value "true" || String.eqb value "yes")%bool = false /\
  (String.eqb value "off" || String.eqb value "false" || String.eqb value "no")%bool = false.
Proof.
  intros Hv.
  repeat match goal with
         | |- context [String.eqb value ?s] =>
             destruct (String.eqb_spec value s) as [-> | _];
             [ exfalso; apply Hv; by_evaluation |]
         end.
  done.
Qed.

Section HandlerClaims.

Variable member_to_string : string -> string.
Variable parseDuration : string -> Z.
Variable Player_play : Player -> string -> string -> Player.
Variable Player_stop : Player -> Player.

#[local] Abbreviation play_target := (play_target member_to_string).
#[local] Abbreviation play_handle := (play_handle member_to_string).
#[local] Abbreviation semantically_invalid :=
  (semantically_invalid member_to_string).
#[local] Abbreviation handle :=
  (handle member_to_string parseDuration Player_play Player_stop).
#[local] Abbreviation handle_all :=
  (handle_all member_to_string parseDuration Player_play Player_stop).

Implicit Types (w : World) (user : User).

Lemma play_while_playing w user sound :
  playing (player w) <> None ->
  run (play_handle Player_play user sound) w = w.
Proof. unfold_handler. by destruct (playing (player w)). Qed.

Lemma stop_while_idle w user :
  playing (player w) = None ->
  run (stop_handle Player_stop user) w = w.
Proof. unfold_handler. by intros ->. Qed.

(** A play request either changes nothing or reaches [Player.play], once. *)
Lemma play_outcome w user sound :
  run (play_handle Player_play user sound) w = w \/
  (playing (player w) = None /\
   exists target,
     run (play_handle Player_play user sound) w =
       {| stores := stores w;
          player := Player_play (player w) target (User.name user);
          calls := (calls w ++ [console_log (User.name user +:+ " played " +:+ target)])
                   ++ [Player_play_call target (User.name user)] |}).
Proof.
  unfold_handler. destruct (playing (player w)); [by left |].
  cbn. case_decide; [| by left]. right. split; [done |]. by eexists.
Qed.

Lemma play_unknown w user sound :
  play_target (aliases (stores w)) sound ∉ sounds (player w) ->
  run (play_handle Player_play user sound) w = w.
Proof.
  unfold_handler. intros Hs.
  destruct (playing (player w)); [done |].
  cbn. by rewrite decide_False.
Qed.

(** X18: a handler leaves all five stores as they were when its argument
    is rejected: a name that does not come out as a known sound (play and
    the cooldown commands), a preference key that is not [in] the
    preferences or an unrecognized value keyword (prefs), a numeric role
    name, or an ASCII role name that after normalization is neither one of
    the four roles nor a member name of [Object.prototype] (role). *)
Theorem invalid_argument_keeps_stores w user (i : Invocation) :
  semantically_invalid w i ->
  stores (run (handle user i) w) = stores w.
Proof.
  destruct i as [sound| |name role|key value| | | | |which name value|which name];
    cbn; try done.
  - intros Hs. by rewrite play_unknown.
  - intros [Hnum | (_ & Hrole & Hin)]; unfold_handler;
      unfold JS.Number_isNaN_Number; rewrite negb_involutive.
    + by rewrite Hnum.
    + destruct (JS.is_numeric role) eqn:Hnum; [done |].
      unfold JS.js_in.
      by rewrite (Role_object_normalized role Hnum), Hrole, Hin.
  - intros [Hkey | Hvalue]; unfold_handler.
    + by rewrite Hkey.
    + destruct (not_keyword value Hvalue) as (-> & -> & ->).
      by destruct (JS.js_in key (prefs (stores w))).
  - intros Hs. by rewrite cooldown_set_unknown.
  - intros Hs. by rewrite cooldown_rm_unknown.
Qed.

Lemma play_requests_while_playing reqs w :
  playing (player w) <> None ->
  handle_all (play_requests reqs) w = w.
Proof.
  induction reqs as [|[u s] reqs IH]; intros Hbusy; [done |].
  cbn. rewrite play_while_playing by done. by apply IH.
Qed.

Lemma plays_app (cs cs' : list Call) : plays (cs ++ cs') = (plays cs + plays cs')%nat.
Proof. unfold plays. by rewrite List.filter_app, length_app. Qed.

(** C9: while a sound is playing a play request does nothing at all, and
    while nothing is playing a stop request does nothing at all (neither
    [Player.play] nor [Player.stop] is reached, nothing is logged); and,
    [Player.play] leaving the player busy, a run of play requests reaches
    [Player.play] at most once. *)
Theorem busy_flag_gates :
  (forall w user sound,
      playing (player w) <> None ->
      run (handle user (Play sound)) w = w) /\
  (forall w user,
      playing (player w) = None ->
      run (handle user Stop) w = w) /\
  ((forall p sound requestedBy, playing (Player_play p sound requestedBy) <> None) ->
   forall reqs w,
     (plays (calls (handle_all (play_requests reqs) w)) <= plays (calls w) + 1)%nat /\
     (playing (player w) <> None ->
      plays (calls (handle_all (play_requests reqs) w)) = plays (calls w))).
Proof.
  split; [|split].
  - intros. by apply play_while_playing.
  - intros. by apply stop_while_idle.
  - intros Hbusy reqs w. split.
    + revert w. induction reqs as [|[u s] reqs IH]; intros w; cbn; [lia |].
      destruct (play_outcome w u s) as [-> | (_ & target & ->)]; [apply IH |].
      rewrite play_requests_while_playing by (cbn; apply Hbusy).
      cbn [calls]. rewrite !plays_app. cbn. lia.
    + intros Hb. by rewrite play_requests_while_playing.
Qed.

End HandlerClaims.

(** ** Alias resolution *)

Section AliasLookups.

Variable member_to_string : string -> string.

#[local] Abbreviation cooldown_target := (cooldown_target member_to_string).
#[local] Abbreviation play_target := (play_target member_to_string).
#[local] Abbreviation play_handle := (play_handle member_to_string).
#[local] Abbreviation cooldown_set_handle := (cooldown_set_handle member_to_string).
#[local] Abbreviation cooldown_rm_handle := (cooldown_rm_handle member_to_string).

(** The cooldown commands return a name that is not [in] the alias table
    as it is. *)
Lemma cooldown_target_canonical (a : Aliases) (name : string) :
  a !! name = None -> JS.inherited name = false ->
  cooldown_target a name = name.
Proof.
  intros Ha Hin. unfold_handler. unfold JS.js_in. rewrite Ha, Hin.
  by rewrite bool_decide_eq_false_2 by (by intros [? ?]).
Qed.

(** The play command does so for a lower-case name without a space. *)
Lemma play_target_canonical (a : Aliases) (name : string) :
  JS.split_space_0 (JS.toLowerCase name) = name ->
  a !! name = None -> JS.inherited name = false ->
  play_target a name = name.
Proof.
  intros Hn Ha Hin. unfold_handler.
  rewrite Hn. unfold JS.js_in. rewrite Ha, Hin.
  by rewrite bool_decide_eq_false_2 by (by intros [? ?]).
Qed.

(** The three call sites in terms of the two lookups above. *)
Lemma call_sites_resolve (parseDuration : string -> Z)
    (Player_play : Player -> string -> string -> Player)
    (which : Which) (user : User) (name value : string) (w : World) :
  (run (play_handle Player_play user name) w <> w ->
     play_target (aliases (stores w)) name ∈ sounds (player w)) /\
  (run (cooldown_set_handle parseDuration which user name value) w <> w ->
     cooldown_target (aliases (stores w)) name ∈ sounds (player w)) /\
  (run (cooldown_rm_handle which user name) w <> w ->
     cooldown_target (aliases (stores w)) name ∈ sounds (player w)).
Proof.
  repeat split; intros Hne;
    match goal with |- ?x ∈ ?X => destruct (decide (x ∈ X)) as [|Hn]; [done |] end;
    exfalso; apply Hne.
  - by apply play_unknown.
  - by apply cooldown_set_unknown.
  - by apply cooldown_rm_unknown.
Qed.

End AliasLookups.

(** ** Runs in concrete worlds *)

Section ConcreteRuns.

#[local] Abbreviation play_target := (play_target Example.member_to_string).
#[local] Abbreviation cooldown_target :=
  (cooldown_target Example.member_to_string).
#[local] Abbreviation play_handle := (play_handle Example.member_to_string).
#[local] Abbreviation prefs_handle := (prefs_handle Example.member_to_string).
#[local] Abbreviation cooldown_set_handle :=
  (cooldown_set_handle Example.member_to_string).
#[local] Abbreviation cooldown_rm_handle :=
  (cooldown_rm_handle Example.member_to_string).
#[local] Abbreviation handle := (handle Example.member_to_string).
#[local] Abbreviation handle_all := (handle_all Example.member_to_string).

Lemma invalid_argument_keeps_stores_witness :
  let w := Example.fresh {["foo"]} in
  let h := handle Duration.parse Example.Player_play Example.Player_stop Example.streamer in
  stores (run (h (Play "nope")) w) = stores w /\
  stores (run (h (CooldownSet for_user "nope" "5s")) w) = stores w /\
  stores (run (h (Prefs "volume" "on")) w) = stores w /\
  stores (run (h (Prefs "autoplay" "maybe")) w) = stores w /\
  stores (run (h (SetRole "bob" "2")) w) = stores w /\
  stores (run (h (SetRole "bob" "wizard")) w) = stores w.
Proof.
  cbn zeta.
  split; [|split; [|split; [|split; [|split]]]];
    apply (invalid_argument_keeps_stores Example.member_to_string Duration.parse
             Example.Player_play Example.Player_stop (Example.fresh {["foo"]})
             Example.streamer);
    cbn.
  - by_evaluation.
  - by_evaluation.
  - left. vm_compute; reflexivity.
  - right. by_evaluation.
  - left. vm_compute; reflexivity.
  - right. split; [|split]; vm_compute; reflexivity.
Defined.

Lemma busy_flag_gates_witness :
  let h := handle Duration.parse Example.Player_play Example.Player_stop Example.streamer in
  run (h (Play "foo")) (Example.busy {["foo"]} "foo") = Example.busy {["foo"]} "foo" /\
  run (h Stop) (Example.fresh {["foo"]}) = Example.fresh {["foo"]} /\
  (plays (calls (handle_all Duration.parse Example.Player_play Example.Player_stop
                   (play_requests [(Example.streamer, "nope"); (Example.streamer, "foo");
                                   (Example.streamer, "foo")])
                   (Example.fresh {["foo"]}))) <= 0 + 1)%nat.
Proof.
  cbn zeta.
  destruct (busy_flag_gates Example.member_to_string Duration.parse
              Example.Player_play Example.Player_stop)
    as (Hplay & Hstop & Hruns).
  split; [|split].
  - apply Hplay. vm_compute; discriminate.
  - apply Hstop. vm_compute; reflexivity.
  - apply (Hruns (fun p sound requestedBy => ltac:(vm_compute; discriminate))).
Defined.

(** In that run the one call is for the first request naming a known sound. *)
Lemma first_valid_play_wins :
  calls (handle_all Duration.parse Example.Player_play Example.Player_stop
           (play_requests [(Example.streamer, "nope"); (Example.streamer, "foo");
                           (Example.streamer, "bar")])
           (Example.fresh {["foo"; "bar"]})) =
    [console_log "chan played foo"; Player_play_call "foo" "chan"].
Proof. vm_compute; reflexivity. Qed.

(** ** Logging *)

(** C3: the role command logs an unknown role name it did not set, and the
    preference command logs a value keyword it did not recognize: in both
    runs no store changes and a line is logged all the same. *)
Theorem rejected_role_and_pref_are_logged :
  let w := Example.fresh {["foo"]} in
  let w1 := run (role_handle Example.streamer "bob" "wizard") w in
  let w2 := run (prefs_handle Example.streamer "autoplay" "maybe") w in
  stores w1 = stores w /\
  calls w1 = [console_log "chan set role of bob to Wizard"] /\
  stores w2 = stores w /\
  calls w2 = [console_log "Updated preference autoplay to false"].
Proof. repeat split; vm_compute; reflexivity. Qed.

(** The early returns do stay silent. *)
Lemma early_returns_are_silent :
  let w := Example.fresh {["foo"]} in
  let h := handle Duration.parse Example.Player_play Example.Player_stop Example.streamer in
  calls (run (h (Play "nope")) w) = [] /\
  calls (run (h (SetRole "bob" "2")) w) = [] /\
  calls (run (h (Prefs "volume" "on")) w) = [] /\
  calls (run (h (AliasSet "x" "nope")) w) = [] /\
  calls (run (h (CooldownSet for_user "nope" "5s")) w) = [] /\
  calls (run (h (CooldownRm for_user "foo")) w) = [].
Proof. repeat split; vm_compute; reflexivity. Qed.

(** C8: the cooldown commands look the name up in the alias table as it is
    given, without lower-casing it as the play command does.  With the alias
    [boom] for [explosion], [BOOM] plays [explosion], while a cooldown set
    on [BOOM] is dropped as naming an unknown sound. *)
Theorem cooldown_alias_lookup_keeps_case :
  let w0 := Example.fresh {["explosion"]} in
  let w := run (alias_set_handle Example.streamer "Boom" "explosion") w0 in
  aliases (stores w) = {[ "boom" := "explosion" ]} /\
  resolve (aliases (stores w)) "BOOM" = "explosion" /\
  play_target (aliases (stores w)) "BOOM" = "explosion" /\
  calls (run (play_handle Example.Player_play Example.streamer "BOOM") w) =
    (calls w ++ [console_log "chan played explosion";
                 Player_play_call "explosion" "chan"])%list /\
  cooldown_target (aliases (stores w)) "BOOM" = "BOOM" /\
  run (cooldown_set_handle Duration.parse for_user Example.streamer "BOOM" "5s") w = w /\
  run (cooldown_rm_handle for_user Example.streamer "BOOM")
    (run (cooldown_set_handle Duration.parse for_user Example.streamer "boom" "5s") w)
  = run (cooldown_set_handle Duration.parse for_user Example.streamer "boom" "5s") w /\
  cooldowns (stores
    (run (cooldown_set_handle Duration.parse for_user Example.streamer "boom" "5s") w))
    !! "explosion" = Some {| perUser := 5000; perSound := 0 |}.
Proof. repeat split; vm_compute; reflexivity. Qed.

(** ** Names the objects inherit *)

(** C5: a preference key and a role name that are unknown, but name a
    member of [Object.prototype], pass the handlers' [in] tests:
    [prefs constructor on] adds the key [constructor] to the preferences,
    and [role bob __proto__] adds [bob] to the users. *)
Theorem inherited_name_reaches_store :
  let w := Example.fresh {["foo"]} in
  let w1 := run (prefs_handle Example.streamer "constructor" "on") w in
  let w2 := run (role_handle Example.streamer "bob" "__proto__") w in
  prefs (stores w) = {[ "autoplay" := false ]} /\
  prefs (stores w1) = <[ "constructor" := true ]> {[ "autoplay" := false ]} /\
  calls w1 = [console_log "Updated preference constructor to true"] /\
  roleByName (capitalize (JS.toLowerCase "__proto__")) = None /\
  users (stores w) !! "bob" = None /\
  users (stores w2) !! "bob" = Some (User.mk "bob" (Member "__proto__")).
Proof. repeat split; vm_compute; reflexivity. Qed.

(** C4: for a known sound whose name is a member name of
    [Object.prototype], [rm] does not reach the record: the alias test
    succeeds on the inherited member, the name becomes that member, which
    is no sound, and the command returns with the table, and the world, as
    they were. *)
Theorem rm_skips_sound_named_like_member :
  let record := {| perUser := 5000; perSound := 3000 |} in
  let w := Example.with_cooldowns {["constructor"; "toString"]}
             (<[ "toString" := record ]> {[ "constructor" := record ]}) in
  bool_decide ("constructor" ∈ sounds (player w)) = true /\
  cooldowns (stores w) !! "constructor" = Some record /\
  aliases (stores w) = ∅ /\
  JS.js_in "constructor" (aliases (stores w)) = true /\
  cooldown_target (aliases (stores w)) "constructor" =
    "function Object() { [native code] }" /\
  run (cooldown_rm_handle for_user Example.streamer "constructor") w = w /\
  run (cooldown_rm_handle for_sound Example.streamer "toString") w = w /\
  rm_update for_user "constructor" (cooldowns (stores w)) !! "constructor" =
    Some {| perUser := 0; perSound := 3000 |}.
Proof. repeat split; vm_compute; reflexivity. Qed.

End ConcreteRuns.


(** * Further properties of the handlers *)

(** ** Strings *)

Lemma lower_char_idem (c : ascii) : JS.lower_char (JS.lower_char c) = JS.lower_char c.
Proof. destruct c as [[] [] [] [] [] [] [] []]; reflexivity. Qed.

Lemma toLowerCase_idem (s : string) : JS.toLowerCase (JS.toLowerCase s) = JS.toLowerCase s.
Proof. induction s as [|c s IH]; cbn; [done |]. by rewrite lower_char_idem, IH. Qed.

Lemma append_cons (c : ascii) (s t : string) : String c s +:+ t = String c (s +:+ t).
Proof. reflexivity. Qed.

Lemma toLowerCase_app (s t : string) :
  JS.toLowerCase (s +:+ t) = JS.toLowerCase s +:+ JS.toLowerCase t.
Proof.
  induction s as [|c s IH]; [done |].
  rewrite append_cons. cbn [JS.toLowerCase]. by rewrite append_cons, IH.
Qed.

Lemma split_space_0_app (s t : string) :
  JS.split_space_0 (s +:+ String " " t) = JS.split_space_0 s.
Proof.
  induction s as [|c s IH]; [done |].
  rewrite append_cons. cbn [JS.split_space_0].
  destruct (Ascii.eqb c " "); [done |]. by rewrite IH.
Qed.

Lemma append_length (s t : string) :
  String.length (s +:+ t) = (String.length s + String.length t)%nat.
Proof.
  induction s as [|c s IH]; [done |].
  rewrite append_cons. cbn [String.length]. by rewrite IH.
Qed.

Lemma append_cancel_r (s1 s2 t : string) : s1 +:+ t = s2 +:+ t -> s1 = s2.
Proof.
  revert s2. induction s1 as [|c s1 IH]; intros [|c2 s2] H.
  - done.
  - apply (f_equal String.length) in H.
    rewrite !append_length in H. cbn [String.length] in H. lia.
  - apply (f_equal String.length) in H.
    rewrite !append_length in H. cbn [String.length] in H. lia.
  - rewrite !append_cons in H. injection H as -> H. f_equal. by apply IH.
Qed.

(** ** Store keys with a channel *)

(** X1: with a channel, two stores get the same storage key only if they
    have the same key name; the five stores of the program get five
    different keys. *)
Theorem storeKey_with_channel (ch : string) :
  ch <> "" ->
  (forall key, storeKey key (Some ch) = key +:+ "." +:+ ch) /\
  (forall k1 k2, storeKey k1 (Some ch) = storeKey k2 (Some ch) -> k1 = k2) /\
  NoDup (store_keys (Some ch)).
Proof.
  intros Hch. destruct ch as [|c ch]; [done |].
  assert (Hinj : forall k1 k2,
             storeKey k1 (Some (String c ch)) = storeKey k2 (Some (String c ch)) ->
             k1 = k2).
  { intros k1 k2 H. cbn [storeKey] in H. by apply append_cancel_r in H. }
  split; [done |]. split; [exact Hinj |].
  unfold store_keys.
  repeat (apply NoDup_cons; split;
          [ rewrite ?elem_of_cons, elem_of_nil;
            intros H; repeat (destruct H as [H | H]; [apply Hinj in H; discriminate |]);
            exact H
          |]).
  apply NoDup_nil_2.
Qed.

Lemma storeKey_with_channel_witness :
  NoDup (store_keys (Some "chan")).
Proof.
  apply (storeKey_with_channel "chan"). discriminate.
Defined.

(** ** Play ignores case and trailing words *)

Section PlayFacts.

Variable member_to_string : string -> string.
Variable Player_play : Player -> string -> string -> Player.

#[local] Abbreviation play_handle := (play_handle member_to_string).

(** X2: the play command reads its argument up to the first space and
    without regard to case: more words after the sound, or another casing
    of it, give the same run. *)
Theorem play_first_word_any_case (user : User) (sound rest : string) (w : World) :
  run (play_handle Player_play user (JS.toLowerCase sound)) w =
    run (play_handle Player_play user sound) w /\
  run (play_handle Player_play user (sound +:+ " " +:+ rest)) w =
    run (play_handle Player_play user sound) w.
Proof.
  unfold_handler. split.
  - by rewrite toLowerCase_idem.
  - change (" " +:+ rest) with (String " " rest).
    rewrite toLowerCase_app. cbn [JS.toLowerCase].
    change (JS.lower_char " ") with " "%char.
    by rewrite split_space_0_app.
Qed.

End PlayFacts.

(** ** What each command writes to *)

Section HandlerFacts.

Variable member_to_string : string -> string.
Variable parseDuration : string -> Z.
Variable Player_play : Player -> string -> string -> Player.
Variable Player_stop : Player -> Player.

#[local] Abbreviation handle :=
  (handle member_to_string parseDuration Player_play Player_stop).
#[local] Abbreviation handle_all :=
  (handle_all member_to_string parseDuration Player_play Player_stop).

Implicit Types (w : World) (user : User) (i : Invocation) (p : Part).

(** X3: a command writes to one part of the world at most: the role
    command to the users, prefs to the preferences, alias set and rm to the
    aliases, prefix to the prefix, cooldown set and rm to the cooldowns, play
    and stop to the player, say to nothing; every other store, and the
    player, is as before. *)
Theorem handler_writes_one_part user i w p :
  writes i <> Some p ->
  same_part p w (run (handle user i) w).
Proof.
  intros Hp.
  destruct i, p; cbn [writes] in Hp; try done; cbn [same_part];
    handler_cases; done.
Qed.

(** X4: the commands open to the User role (play, say) change no store;
    the commands open below the Streamer role change neither the prefix nor
    the users nor the preferences. *)
Theorem low_roles_cannot_configure user i w :
  (allows i < Role.Editor -> stores (run (handle user i) w) = stores w) /\
  (allows i < Role.Streamer ->
     prefix (stores (run (handle user i) w)) = prefix (stores w) /\
     users (stores (run (handle user i) w)) = users (stores w) /\
     prefs (stores (run (handle user i) w)) = prefs (stores w)).
Proof.
  split.
  - destruct i; cbn [allows]; unfold Role.User, Role.Editor, Role.Streamer;
      try lia; intros _; handler_cases; done.
  - destruct i; cbn [allows]; unfold Role.User, Role.Editor, Role.Streamer;
      try lia; intros _; repeat split; handler_cases; done.
Qed.

Lemma roleByName_range (k : string) (n : Z) :
  roleByName k = Some n -> 0 <= n <= 3.
Proof.
  unfold roleByName, Role.None, Role.User, Role.Editor, Role.Streamer.
  repeat case_match; intros [= <-]; lia.
Qed.

(** X5: a handler run only adds to the calls made so far, and adds at most
    one log line; the player is called by play and stop only, and the
    text-to-speech engine by say only. *)
Theorem handler_calls user i w :
  exists new : list Call,
    calls (run (handle user i) w) = (calls w ++ new)%list /\
    (length (List.filter is_log new) <= 1)%nat /\
    (writes i <> Some ThePlayer -> List.filter is_player_call new = []) /\
    (writes i <> None -> List.filter is_tts_call new = []).
Proof.
  destruct i; handler_cases;
    first
      [ exists []; split; [by rewrite app_nil_r |]
      | eexists [_]; split; [reflexivity |]
      | eexists [_; _]; split; [by rewrite <- app_assoc |] ];
    cbn; repeat split; first [lia | done].
Qed.

Lemma users_wf_handle user i w :
  users_wf (users (stores w)) ->
  users_wf (users (stores (run (handle user i) w))).
Proof.
  intros Hwf.
  destruct i as [| |name role| | | | | | |];
    try (handler_cases; done).
  cbn. rewrite role_handle_users.
  destruct (JS.is_numeric role); [done |].
  destruct (roleByName _) as [n|] eqn:Hr.
  - apply map_Forall_insert_2; [|done].
    split; [done |]. left. exists n. split; [done |].
    by apply roleByName_range in Hr.
  - destruct (String.eqb _ "__proto__"); [|done].
    apply map_Forall_insert_2; [|done]. split; [done | by right].
Qed.

(** X6: the users mapping is well formed initially, for every channel, and
    stays so under every command and every run of messages: each entry is
    stored under the user's own name and carries one of the four role
    numbers or, after [role name __proto__], the prototype object the enum
    inherits; never a reverse-mapping string of the enum. *)
Theorem users_wf_preserved :
  (forall channel, users_wf (users (initial_stores channel))) /\
  (forall user i w,
      users_wf (users (stores w)) ->
      users_wf (users (stores (run (handle user i) w)))) /\
  (forall msgs w,
      users_wf (users (stores w)) ->
      users_wf (users (stores (handle_all msgs w)))).
Proof.
  split; [|split].
  - intros [[|c ch]|]; cbn; try apply map_Forall_empty.
    apply map_Forall_singleton. split; [done |].
    left. exists Role.Streamer. split; [done |]. unfold Role.Streamer. lia.
  - apply users_wf_handle.
  - intros msgs. induction msgs as [|[u i] msgs IH]; intros w Hwf; [done |].
    simpl. by apply IH, users_wf_handle.
Qed.

(** The preferences after a command: as before, or with one key written
    that was [in] them. *)
Lemma prefs_handle_outcome user i w :
  prefs (stores (run (handle user i) w)) = prefs (stores w) \/
  exists key value b,
    i = Prefs key value /\
    JS.js_in key (prefs (stores w)) = true /\
    prefs (stores (run (handle user i) w)) = <[key := b]> (prefs (stores w)).
Proof.
  destruct i; handler_cases; first [by left | right; by do 3 eexists].
Qed.

(** X7: a command never removes a preference key, and the only key it can
    add is one the preferences inherit, a member name of
    [Object.prototype], through the prefs command; for any other key, and
    for every other command, the preferences keep the keys they had. *)
Theorem prefs_keys_grow_by_members user i w :
  let p := prefs (stores w) in
  let p' := prefs (stores (run (handle user i) w)) in
  dom p ⊆ dom p' /\
  (forall key, key ∈ dom p' -> key ∈ dom p \/ JS.inherited key = true) /\
  ((forall key value, i = Prefs key value -> JS.inherited key = false) ->
   dom p' = dom p).
Proof.
  cbn zeta.
  destruct (prefs_handle_outcome user i w)
    as [-> | (key & value & b & -> & Hin & ->)].
  { split; [done |]. split; [by left | done]. }
  rewrite dom_insert_L.
  unfold JS.js_in in Hin. apply orb_true_iff in Hin.
  split; [apply union_subseteq_r |]. split.
  - intros key' [Hk | Hk]%elem_of_union; [|by left].
    apply elem_of_singleton in Hk as ->.
    destruct Hin as [Hown | Hinh]; [left | by right].
    apply bool_decide_eq_true_1 in Hown. by apply elem_of_dom.
  - intros Hno. specialize (Hno key value eq_refl).
    destruct Hin as [Hown | Hinh]; [|congruence].
    apply bool_decide_eq_true_1, elem_of_dom in Hown.
    by apply subseteq_union_1_L, singleton_subseteq_l.
Qed.

Lemma aliases_wf_handle user i w :
  aliases_wf (sounds (player w)) (aliases (stores w)) ->
  aliases_wf (sounds (player w)) (aliases (stores (run (handle user i) w))).
Proof.
  intros Hwf. destruct i; handler_cases; try done.
  all: first
         [ by apply map_Forall_delete
         | apply map_Forall_insert_2; [|done];
           split; [apply toLowerCase_idem | done] ].
Qed.

Lemma sounds_handle user i w :
  (forall pl s u, sounds (Player_play pl s u) = sounds pl) ->
  (forall pl, sounds (Player_stop pl) = sounds pl) ->
  sounds (player (run (handle user i) w)) = sounds (player w).
Proof. intros Hplay Hstop. destruct i; handler_cases; done. Qed.

(** X8: every command keeps the alias table well formed with respect to
    the sounds known when it runs: alias keys are lower-case and alias
    targets are known sounds.  When the player keeps its set of sounds, this
    holds along every run of messages. *)
Theorem aliases_wf_preserved :
  (forall user i w,
      aliases_wf (sounds (player w)) (aliases (stores w)) ->
      aliases_wf (sounds (player w)) (aliases (stores (run (handle user i) w)))) /\
  ((forall pl s u, sounds (Player_play pl s u) = sounds pl) ->
   (forall pl, sounds (Player_stop pl) = sounds pl) ->
   forall msgs w,
     aliases_wf (sounds (player w)) (aliases (stores w)) ->
     aliases_wf (sounds (player w)) (aliases (stores (handle_all msgs w)))).
Proof.
  split; [apply aliases_wf_handle |].
  intros Hplay Hstop msgs.
  induction msgs as [|[u i] msgs IH]; intros w Hwf; [done |].
  simpl. rewrite <- (sounds_handle u i w Hplay Hstop).
  apply IH. rewrite (sounds_handle u i w Hplay Hstop).
  by apply aliases_wf_handle.
Qed.

End HandlerFacts.

(** ** Aliases, set and removed *)

(** X9: removing an alias that was just set, under any casing of its ASCII
    name, gives back the alias table as it was when the name was not an
    alias before, whether or not the set was accepted. *)
Theorem alias_set_then_rm (user user' : User) (name name' as_ : string) (w : World) :
  JS.is_ascii name = true ->
  JS.is_ascii name' = true ->
  JS.toLowerCase name' = JS.toLowerCase name ->
  aliases (stores w) !! JS.toLowerCase name = None ->
  aliases (stores (run (alias_rm_handle user' name')
                     (run (alias_set_handle user name as_) w))) =
  aliases (stores w).
Proof.
  intros _ _ Hcase Hfree. handler_cases; rewrite Hcase.
  all: first [ by apply delete_insert_id | by apply delete_id ].
Qed.

Lemma alias_set_then_rm_witness :
  let w := Example.fresh {["explosion"]} in
  aliases (stores (run (alias_rm_handle Example.streamer "BOOM")
                     (run (alias_set_handle Example.streamer "Boom" "Explosion") w))) =
  aliases (stores w).
Proof.
  cbn zeta. apply alias_set_then_rm; vm_compute; reflexivity.
Defined.

(** The world an accepted [alias set] leaves behind. *)
Lemma alias_set_accepted (user : User) (name as_ : string) (w : World) :
  JS.toLowerCase as_ ∈ sounds (player w) ->
  exists line,
    run (alias_set_handle user name as_) w =
      {| stores :=
           {| prefix := prefix (stores w); users := users (stores w);
              prefs := prefs (stores w);
              aliases := <[JS.toLowerCase name := JS.toLowerCase as_]> (aliases (stores w));
              cooldowns := cooldowns (stores w) |};
         player := player w;
         calls := calls w ++ [console_log line] |}.
Proof. intros Hknown. handler_cases; try done; eexists; reflexivity. Qed.

Section AliasUse.

Variable member_to_string : string -> string.
Variable parseDuration : string -> Z.
Variable Player_play : Player -> string -> string -> Player.

#[local] Abbreviation play_handle := (play_handle member_to_string).
#[local] Abbreviation cooldown_set_handle := (cooldown_set_handle member_to_string).

(** X10: for ASCII names, once [alias set name as_] is accepted (the
    lower-cased target is a known sound) and the name has no space in it,
    playing the name under any casing reaches [Player.play] with the target
    when nothing is playing, and a cooldown set on the lower-cased name
    lands on the target's record. *)
Theorem alias_then_use (user user' : User) (name name' as_ value : string)
    (which : Which) (w : World) :
  let w1 := run (alias_set_handle user name as_) w in
  let target := JS.toLowerCase as_ in
  JS.is_ascii name = true ->
  JS.is_ascii name' = true ->
  JS.is_ascii as_ = true ->
  target ∈ sounds (player w) ->
  JS.split_space_0 (JS.toLowerCase name) = JS.toLowerCase name ->
  JS.toLowerCase name' = JS.toLowerCase name ->
  (playing (player w) = None ->
   calls (run (play_handle Player_play user' name') w1) =
     (calls w1 ++ [console_log (User.name user' +:+ " played " +:+ target);
                   Player_play_call target (User.name user')])%list) /\
  get_field (field_of which) <$>
    cooldowns (stores (run (cooldown_set_handle parseDuration which user'
                              (JS.toLowerCase name) value) w1)) !! target
  = Some (parseDuration value).
Proof.
  intros w1 target _ _ _ Hknown Hword Hcase. subst w1 target.
  destruct (alias_set_accepted user name as_ w Hknown) as [line ->].
  assert (Hin : forall a : Aliases,
             JS.js_in (JS.toLowerCase name)
               (<[JS.toLowerCase name := JS.toLowerCase as_]> a) = true).
  { intros a. unfold JS.js_in. rewrite lookup_insert_eq.
    by rewrite bool_decide_eq_true_2 by eauto. }
  split.
  - intros Hidle. unfold_handler. rewrite Hidle.
    cbn [fst snd stores player calls aliases sounds].
    rewrite Hcase, Hword, Hin. unfold at_key. rewrite lookup_insert_eq.
    rewrite decide_True by done. cbn. by rewrite <- !app_assoc.
  - unfold_handler. rewrite Hin. unfold at_key. rewrite lookup_insert_eq.
    cbn [fst snd stores player calls aliases sounds].
    rewrite decide_True by done. cbn.
    unfold set_update. rewrite lookup_insert_eq. cbn. by destruct which.
Qed.

End AliasUse.

Lemma alias_then_use_witness :
  let w1 := run (alias_set_handle Example.streamer "Boom" "Explosion")
              (Example.fresh {["explosion"]}) in
  calls (run (play_handle Example.member_to_string Example.Player_play
                Example.streamer "BOOM") w1) =
    (calls w1 ++ [console_log "chan played explosion";
                  Player_play_call "explosion" "chan"])%list /\
  get_field PerSound <$>
    cooldowns (stores (run (cooldown_set_handle Example.member_to_string
                              Duration.parse for_sound
                              Example.streamer "boom" "1m") w1)) !! "explosion"
  = Some 60000.
Proof.
  cbn zeta.
  destruct (alias_then_use Example.member_to_string Duration.parse
              Example.Player_play Example.streamer
              Example.streamer "Boom" "BOOM" "Explosion" "1m" for_sound
              (Example.fresh {["explosion"]}))
    as [Hplay Hcool];
    [reflexivity | reflexivity | reflexivity | by_evaluation
    | vm_compute; reflexivity .. |].
  split; [apply Hplay; vm_compute; reflexivity | exact Hcool].
Defined.

(** ** Cooldowns, set and removed *)

Section CooldownRoundTrips.

Variable member_to_string : string -> string.
Variable parseDuration : string -> Z.

#[local] Abbreviation cooldown_target := (cooldown_target member_to_string).
#[local] Abbreviation cooldown_set_handle := (cooldown_set_handle member_to_string).
#[local] Abbreviation cooldown_rm_handle := (cooldown_rm_handle member_to_string).

Implicit Types (w : World) (which : Which) (user : User).

Lemma cooldown_set_frame which user name value w :
  aliases (stores (run (cooldown_set_handle parseDuration which user name value) w)) =
    aliases (stores w) /\
  player (run (cooldown_set_handle parseDuration which user name value) w) = player w.
Proof. split; handler_cases; done. Qed.

Lemma cooldown_rm_frame which user name w :
  aliases (stores (run (cooldown_rm_handle which user name) w)) = aliases (stores w) /\
  player (run (cooldown_rm_handle which user name) w) = player w.
Proof. split; handler_cases; done. Qed.

Lemma set_field_twice f x y (c : Cooldown) :
  set_field f x (set_field f y c) = set_field f x c.
Proof. by destruct f. Qed.

(** X11: a successful set stores a record for the resolved sound whose
    selected field is the parsed duration, and touches no other sound; with
    the user selector the record keeps the previous [perSound], or 0 when
    there was no record. *)
Theorem cooldown_set_result which user name value w :
  let s := cooldown_target (aliases (stores w)) name in
  let t := cooldowns (stores w) in
  let t' := cooldowns (stores (run (cooldown_set_handle parseDuration which user name value) w)) in
  s ∈ sounds (player w) ->
  (exists c, t' !! s = Some c /\
     get_field (field_of which) c = parseDuration value /\
     (which = for_user -> perSound c = default 0 (perSound <$> t !! s))) /\
  (forall s', s' <> s -> t' !! s' = t !! s').
Proof.
  intros s t t' Hs. subst t'. rewrite cooldown_set_cooldowns. cbn zeta.
  fold s t. rewrite decide_True by done. split.
  - eexists. rewrite set_update_lookup. split; [done |].
    destruct which; cbn; [split; [done | done] |].
    split; [done |]. discriminate.
  - intros s' Hne. by apply set_update_other.
Qed.

(** X12: on a sound without a cooldown record, a set followed by an rm of
    the same field gives back the cooldown table as it was, for both
    fields and whatever the duration. *)
Theorem cooldown_set_then_rm which user user' name value w :
  cooldowns (stores w) !! cooldown_target (aliases (stores w)) name = None ->
  cooldowns (stores
    (run (cooldown_rm_handle which user' name)
       (run (cooldown_set_handle parseDuration which user name value) w))) =
  cooldowns (stores w).
Proof.
  intros Hnone. rewrite cooldown_rm_cooldowns. cbn zeta.
  destruct (cooldown_set_frame which user name value w) as [-> ->].
  rewrite cooldown_set_cooldowns. cbn zeta.
  set (s := cooldown_target (aliases (stores w)) name) in *.
  destruct (decide (s ∈ sounds (player w))); [|done].
  rewrite decide_True by (rewrite set_update_lookup; eauto).
  erewrite rm_update_Some by apply set_update_lookup.
  rewrite Hnone. cbn.
  rewrite decide_True by (by destruct which).
  unfold set_update. by apply delete_insert_id.
Qed.

(** X13: rm is idempotent on the cooldown table: a second rm of the same
    field of the same name changes nothing more. *)
Theorem cooldown_rm_twice which user user' name w :
  cooldowns (stores
    (run (cooldown_rm_handle which user' name)
       (run (cooldown_rm_handle which user name) w))) =
  cooldowns (stores (run (cooldown_rm_handle which user name) w)).
Proof.
  rewrite (cooldown_rm_cooldowns member_to_string which user' name).
  cbn zeta. destruct (cooldown_rm_frame which user name w) as [-> ->].
  rewrite cooldown_rm_cooldowns. cbn zeta.
  set (s := cooldown_target (aliases (stores w)) name) in *.
  destruct (decide (s ∈ sounds (player w))); [|done].
  destruct (cooldowns (stores w) !! s) as [c|] eqn:Hc.
  - rewrite (decide_True (P := is_Some (Some c))) by eauto.
    rewrite (rm_update_Some which s _ c Hc).
    destruct (decide (get_field (secondary_of which) c = 0)) as [Hz | Hz].
    + rewrite decide_False; [done |].
      rewrite lookup_delete_eq. by intros [? ?].
    + rewrite decide_True by (rewrite lookup_insert_eq; eauto).
      erewrite rm_update_Some by apply lookup_insert_eq.
      rewrite get_set_secondary, decide_False by done.
      by rewrite insert_insert_eq, set_field_twice.
  - rewrite (decide_False (P := is_Some None)) by (by intros [? ?]).
    rewrite Hc. by rewrite decide_False by (by intros [? ?]).
Qed.

End CooldownRoundTrips.

(** ** Stop requests *)

Section StopFacts.

Variable member_to_string : string -> string.
Variable parseDuration : string -> Z.
Variable Player_play : Player -> string -> string -> Player.
Variable Player_stop : Player -> Player.

#[local] Abbreviation handle_all :=
  (handle_all member_to_string parseDuration Player_play Player_stop).

Implicit Types (w : World) (user : User).

Lemma stop_outcome w user :
  run (stop_handle Player_stop user) w = w \/
  exists current,
    playing (player w) = Some current /\
    run (stop_handle Player_stop user) w =
      {| stores := stores w;
         player := Player_stop (player w);
         calls := (calls w ++ [console_log (User.name user +:+ " stopped " +:+ current)])
                  ++ [Player_stop_call] |}.
Proof.
  unfold_handler. destruct (playing (player w)) as [current|]; [|by left].
  right. by exists current.
Qed.

Lemma stop_requests_while_idle reqs w :
  playing (player w) = None ->
  handle_all (stop_requests reqs) w = w.
Proof.
  induction reqs as [|u reqs IH]; intros Hidle; [done |].
  simpl. rewrite stop_while_idle by done. by apply IH.
Qed.

(** X14: a stop request met while a sound is playing logs who stopped
    which sound and calls [Player.stop], leaving the stores alone; and,
    [Player.stop] leaving nothing playing, a run of stop requests reaches
    [Player.stop] at most once. *)
Theorem stop_requests_once :
  (forall w user current,
      playing (player w) = Some current ->
      stores (run (stop_handle Player_stop user) w) = stores w /\
      calls (run (stop_handle Player_stop user) w) =
        (calls w ++ [console_log (User.name user +:+ " stopped " +:+ current);
                     Player_stop_call])%list) /\
  ((forall p, playing (Player_stop p) = None) ->
   forall reqs w,
     (length (List.filter is_stop_call (calls (handle_all (stop_requests reqs) w)))
      <= length (List.filter is_stop_call (calls w)) + 1)%nat).
Proof.
  split.
  - intros w user current Hc. unfold_handler. rewrite Hc. cbn.
    by rewrite <- app_assoc.
  - intros Hidle reqs. induction reqs as [|u reqs IH]; intros w; simpl; [lia |].
    destruct (stop_outcome w u) as [-> | (current & _ & ->)]; [apply IH |].
    rewrite stop_requests_while_idle by (cbn; apply Hidle).
    cbn [calls]. rewrite !List.filter_app, !length_app. cbn. lia.
Qed.

End StopFacts.

Lemma stop_requests_once_witness :
  calls (run (stop_handle Example.Player_stop Example.streamer)
           (Example.busy {["foo"]} "foo")) =
    [console_log "chan stopped foo"; Player_stop_call] /\
  (length (List.filter is_stop_call
     (calls (handle_all Example.member_to_string Duration.parse Example.Player_play Example.Player_stop
               (stop_requests [Example.streamer; Example.streamer])
               (Example.busy {["foo"]} "foo")))) <= 0 + 1)%nat.
Proof.
  destruct (stop_requests_once Example.member_to_string Duration.parse Example.Player_play Example.Player_stop)
    as [Hstop Hruns].
  split.
  - apply (Hstop (Example.busy {["foo"]} "foo") Example.streamer "foo"). reflexivity.
  - apply (Hruns (fun p => eq_refl)).
Defined.

(** ** Role names and preference values *)

(** X15: the role names listed in the role command's description are the
    four symbolic names, without the enum's numeric keys, and the role
    command accepts each of them, as listed or in lower case, storing the
    user under their name with that role. *)
Theorem listed_roles_are_accepted :
  Role.roles = ["None"; "User"; "Editor"; "Streamer"] /\
  forall (r : string) (user : User) (name : string) (w : World),
    r ∈ Role.roles ->
    exists n,
      Role.object !! r = Some (Num n) /\
      users (stores (run (role_handle user name r) w)) =
        <[name := User.mk name (Num n)]> (users (stores w)) /\
      users (stores (run (role_handle user name (JS.toLowerCase r)) w)) =
        <[name := User.mk name (Num n)]> (users (stores w)).
Proof.
  split; [vm_compute; reflexivity |].
  intros r user name w Hr.
  assert (Hroles : Role.roles = ["None"; "User"; "Editor"; "Streamer"])
    by (vm_compute; reflexivity).
  rewrite Hroles in Hr. rewrite !elem_of_cons, elem_of_nil in Hr.
  assert (Hrun : forall role n,
             JS.is_numeric role = false ->
             roleByName (capitalize (JS.toLowerCase role)) = Some n ->
             users (stores (run (role_handle user name role) w)) =
               <[name := User.mk name (Num n)]> (users (stores w))).
  { intros role n Hnum Hname. by rewrite role_handle_users, Hnum, Hname. }
  destruct Hr as [-> | [-> | [-> | [-> | []]]]];
    [exists Role.None | exists Role.User | exists Role.Editor | exists Role.Streamer];
    (split; [vm_compute; reflexivity |]);
    split; apply Hrun; vm_compute; reflexivity.
Qed.

Lemma listed_roles_are_accepted_witness :
  exists n,
    Role.object !! "Editor" = Some (Num n) /\
    users (stores (run (role_handle Example.streamer "bob" "Editor") (Example.fresh ∅))) =
      <["bob" := User.mk "bob" (Num n)]> (users (stores (Example.fresh ∅))) /\
    users (stores (run (role_handle Example.streamer "bob" (JS.toLowerCase "Editor"))
                     (Example.fresh ∅))) =
      <["bob" := User.mk "bob" (Num n)]> (users (stores (Example.fresh ∅))).
Proof.
  destruct listed_roles_are_accepted as [_ H].
  apply (H "Editor" Example.streamer "bob" (Example.fresh ∅)). by_evaluation.
Defined.

Section ToggleTwice.

Variable member_to_string : string -> string.

#[local] Abbreviation prefs_handle := (prefs_handle member_to_string).

Lemma prefs_toggle_prefs (user : User) (key : string) (w : World) :
  prefs (stores (run (prefs_handle user key "toggle") w)) =
    if JS.js_in key (prefs (stores w))
    then <[key := not_at (prefs (stores w)) key]> (prefs (stores w))
    else prefs (stores w).
Proof.
  unfold_handler. by destruct (JS.js_in key (prefs (stores w))).
Qed.

(** X16: toggling a preference twice gives back the preferences as they
    were, for every key the preferences have and for every key that is not
    [in] them; for a key they only inherit, a member name of
    [Object.prototype], the two toggles leave it stored as [true]. *)
Theorem prefs_toggle_twice (user user' : User) (key : string) (w : World) :
  let p := prefs (stores w) in
  let p'' := prefs (stores (run (prefs_handle user' key "toggle")
                              (run (prefs_handle user key "toggle") w))) in
  (is_Some (p !! key) \/ JS.inherited key = false -> p'' = p) /\
  (p !! key = None -> JS.inherited key = true -> p'' = <[key := true]> p).
Proof.
  cbn zeta. rewrite !prefs_toggle_prefs. unfold JS.js_in, not_at.
  destruct (prefs (stores w) !! key) as [b|] eqn:Hb; cbn.
  - rewrite lookup_insert_eq. cbn.
    rewrite insert_insert_eq, negb_involutive.
    split; [intros _; by apply insert_id | done].
  - destruct (JS.inherited key) eqn:Hin; cbn.
    + rewrite lookup_insert_eq. cbn. rewrite insert_insert_eq.
      split; [by intros [[? ?] | ?] | done].
    + rewrite Hb. cbn. split; [done | done].
Qed.

End ToggleTwice.

Lemma prefs_toggle_twice_witness :
  let w := Example.fresh ∅ in
  let twice key :=
    prefs (stores (run (prefs_handle Example.member_to_string Example.streamer key "toggle")
                     (run (prefs_handle Example.member_to_string Example.streamer key "toggle") w))) in
  twice "autoplay" = prefs (stores w) /\
  twice "volume" = prefs (stores w) /\
  twice "constructor" = <["constructor" := true]> (prefs (stores w)).
Proof.
  cbn zeta. split; [|split].
  - apply (prefs_toggle_twice Example.member_to_string). left. by_evaluation.
  - apply (prefs_toggle_twice Example.member_to_string). right. reflexivity.
  - apply (prefs_toggle_twice Example.member_to_string); reflexivity.
Defined.

(** ** The properties above at concrete worlds *)

Lemma handler_writes_one_part_witness :
  let w := Example.with_cooldowns {["foo"]} ∅ in
  let w' := run (handle Example.member_to_string Duration.parse Example.Player_play Example.Player_stop
                   Example.streamer (CooldownSet for_user "foo" "5s")) w in
  same_part AliasesStore w w' /\ same_part ThePlayer w w'.
Proof.
  cbn zeta. split;
    apply (handler_writes_one_part Example.member_to_string Duration.parse Example.Player_play
             Example.Player_stop); discriminate.
Defined.

Lemma low_roles_cannot_configure_witness :
  let h := handle Example.member_to_string Duration.parse Example.Player_play Example.Player_stop Example.streamer in
  let w := Example.fresh {["foo"]} in
  stores (run (h (Play "foo")) w) = stores w /\
  users (stores (run (h (AliasSet "x" "foo")) w)) = users (stores w).
Proof.
  cbn zeta. split.
  - apply (low_roles_cannot_configure Example.member_to_string Duration.parse Example.Player_play
             Example.Player_stop Example.streamer (Play "foo")).
    vm_compute; reflexivity.
  - apply (low_roles_cannot_configure Example.member_to_string Duration.parse Example.Player_play
             Example.Player_stop Example.streamer (AliasSet "x" "foo")).
    vm_compute; reflexivity.
Defined.

Lemma handler_calls_witness :
  exists new : list Call,
    calls (run (handle Example.member_to_string Duration.parse Example.Player_play Example.Player_stop
                  Example.streamer (Say "hello")) (Example.fresh ∅)) =
      (calls (Example.fresh ∅) ++ new)%list /\
    (length (List.filter is_log new) <= 1)%nat /\
    List.filter is_player_call new = [].
Proof.
  destruct (handler_calls Example.member_to_string Duration.parse Example.Player_play Example.Player_stop
              Example.streamer (Say "hello") (Example.fresh ∅))
    as (new & Hcalls & Hlog & Hplayer & _).
  exists new. split; [exact Hcalls |]. split; [exact Hlog |].
  apply Hplayer. discriminate.
Defined.

Lemma users_wf_preserved_witness :
  users_wf (users (stores
    (handle_all Example.member_to_string Duration.parse Example.Player_play Example.Player_stop
       [(Example.streamer, SetRole "bob" "editor");
        (Example.streamer, SetRole "chan" "none")] (Example.fresh ∅)))).
Proof.
  destruct (users_wf_preserved Example.member_to_string Duration.parse Example.Player_play Example.Player_stop)
    as (Hinit & _ & Hrun).
  apply Hrun. apply (Hinit (Some "chan")).
Defined.

Lemma prefs_keys_grow_by_members_witness :
  let h := handle Example.member_to_string Duration.parse Example.Player_play
             Example.Player_stop Example.streamer in
  let w := Example.fresh ∅ in
  dom (prefs (stores (run (h (Prefs "volume" "on")) w))) = dom (prefs (stores w)) /\
  ("constructor" ∈ dom (prefs (stores w)) \/ JS.inherited "constructor" = true).
Proof.
  cbn zeta. split.
  - apply (prefs_keys_grow_by_members Example.member_to_string Duration.parse
             Example.Player_play Example.Player_stop Example.streamer
             (Prefs "volume" "on") (Example.fresh ∅)).
    intros key value [= <- _]. reflexivity.
  - apply (prefs_keys_grow_by_members Example.member_to_string Duration.parse
             Example.Player_play Example.Player_stop Example.streamer
             (Prefs "constructor" "on") (Example.fresh ∅)).
    by_evaluation.
Defined.

Lemma aliases_wf_preserved_witness :
  let w := run (alias_set_handle Example.streamer "Boom" "Explosion")
             (Example.fresh {["explosion"; "foo"]}) in
  aliases_wf (sounds (player w))
    (aliases (stores
       (handle_all Example.member_to_string Duration.parse Example.Player_play Example.Player_stop
          [(Example.streamer, AliasSet "BANG" "Foo"); (Example.streamer, Play "bang")]
          w))).
Proof.
  cbn zeta.
  destruct (aliases_wf_preserved Example.member_to_string Duration.parse Example.Player_play Example.Player_stop)
    as [_ Hrun].
  apply Hrun; [reflexivity | reflexivity |].
  unfold aliases_wf. by_evaluation.
Defined.

Lemma cooldown_set_result_witness :
  let w := Example.with_cooldowns {["foo"]}
             {[ "foo" := {| perUser := 5000; perSound := 3000 |} ]} in
  exists c,
    cooldowns (stores (run (cooldown_set_handle Example.member_to_string Duration.parse for_user
                              Example.streamer "foo" "1m") w)) !! "foo" = Some c /\
    get_field PerUser c = 60000 /\ perSound c = 3000.
Proof.
  cbn zeta.
  destruct (cooldown_set_result Example.member_to_string Duration.parse for_user Example.streamer "foo" "1m"
              (Example.with_cooldowns {["foo"]}
                 {[ "foo" := {| perUser := 5000; perSound := 3000 |} ]}))
    as [(c & Hc & Hfield & Hother) _]; [by_evaluation |].
  exists c. split; [exact Hc |]. split; [exact Hfield |].
  rewrite Hother by reflexivity. vm_compute; reflexivity.
Defined.

Lemma cooldown_set_then_rm_witness :
  let w := Example.fresh {["foo"]} in
  cooldowns (stores
    (run (cooldown_rm_handle Example.member_to_string for_sound Example.streamer "foo")
       (run (cooldown_set_handle Example.member_to_string Duration.parse for_sound Example.streamer "foo" "1m") w))) =
  cooldowns (stores w).
Proof.
  cbn zeta. apply cooldown_set_then_rm. vm_compute; reflexivity.
Defined.
